(** * LuaJIT target definitions (lj_target.h): register, spill-slot,
    register-set and register-cost encodings, and exit-stub addressing.

    The header consists of C macros over small unsigned integers.  Every
    macro is embedded as a function on [Z]; the width of the C type an
    expression is computed in is written out as a reduction modulo a power
    of two, and C truth values are integers tested with [truthy]. *)

From Stdlib Require Import ZArith Lia Bool List.
Import ListNotations.
Local Open Scope Z_scope.

(** ** C integer arithmetic *)

Definition u8 (x : Z) : Z := x mod 2 ^ 8.
Definition u16 (x : Z) : Z := x mod 2 ^ 16.
Definition u32 (x : Z) : Z := x mod 2 ^ 32.

(** A C scalar used as a condition is true when it is not zero. *)
Definition truthy (x : Z) : bool := negb (x =? 0).

(** Results of [!], [==] and [!=]: the integers 1 and 0. *)
Definition c_not (x : Z) : Z := if x =? 0 then 1 else 0.
Definition c_eq (x y : Z) : Z := if x =? y then 1 else 0.
Definition c_ne (x y : Z) : Z := if x =? y then 0 else 1.

(** Shifts of a 32-bit unsigned operand by a count that is only known at
    the use site.  C leaves a shift undefined when the count is negative
    or not smaller than the width of the operand, hence the [option]. *)
Definition shl32 (x n : Z) : option Z :=
  if (0 <=? n) && (n <? 32) then Some (u32 (Z.shiftl x n)) else None.
Definition shr32 (x n : Z) : option Z :=
  if (0 <=? n) && (n <? 32) then Some (Z.shiftr x n) else None.

Definition obind {A B : Type} (m : option A) (k : A -> option B) : option B :=
  match m with
  | Some a => k a
  | None => None
  end.

Notation "x <- m ;; k" := (obind m (fun x => k))
  (at level 61, m at next level, right associativity).

(** ** Registers and spill slots *)

(** [Reg] is a [uint32_t]; the value kept in [ir->r] is a [uint8_t]. *)
Definition RID_NONE : Z := 0x80.
Definition RID_MASK : Z := 0x7f.
Definition RID_INIT : Z := Z.lor RID_NONE RID_MASK.

Definition ra_noreg (r : Z) : Z := Z.land r RID_NONE.
Definition ra_hasreg (r : Z) : Z := c_not (Z.land r RID_NONE).

Definition ra_hashint (r : Z) : Z := c_ne r RID_INIT.
Definition ra_gethint (r : Z) : Z := u32 (Z.land r RID_MASK).
(** [ra_sethint(rr, r)] assigns to [rr]; the function gives the value [rr]
    holds afterwards.  The previous value of [rr] plays no part. *)
Definition ra_sethint (rr r : Z) : Z := u8 (Z.lor r RID_NONE).
Definition ra_samehint (r1 r2 : Z) : Z := c_eq (ra_gethint (Z.lxor r1 r2)) 0.

Definition SPS_NONE : Z := 0.
Definition ra_hasspill (s : Z) : Z := c_ne s SPS_NONE.

(** ** Combined register and spill slot *)

(** [RegSP] is a [uint32_t]; the value kept in [ir->prev] is a [uint16_t]. *)
Definition REGSP (r s : Z) : Z := u32 (r + u32 (Z.shiftl s 8)).
Definition REGSP_HINT (r : Z) : Z := Z.lor r RID_NONE.
Definition REGSP_INIT : Z := REGSP RID_INIT 0.

Definition regsp_reg (rs : Z) : Z := Z.land rs 255.
Definition regsp_spill (rs : Z) : Z := Z.shiftr rs 8.
Definition regsp_used (rs : Z) : Z :=
  c_ne (Z.land rs (Z.lnot (REGSP RID_MASK 0))) (REGSP RID_NONE 0).

(** ** Register sets *)

(** [RegSet] is a [uint32_t].  The shift counts of these macros are their
    arguments, so each one is defined only where its shifts are. *)
Definition RID2RSET (r : Z) : option Z := shl32 1 r.
Definition RSET_EMPTY : Z := 0.
Definition RSET_RANGE (lo hi : Z) : option Z :=
  b <- RID2RSET (hi - lo) ;; shl32 (u32 (b - 1)) lo.

Definition rset_test (rs r : Z) : option Z :=
  q <- shr32 rs r ;; Some (Z.land q 1).
(** [rset_set] and [rset_clear] assign to [rs]; the functions give its new
    value.  [rset_exclude] computes the same value as [rset_clear] and
    leaves [rs] alone. *)
Definition rset_set (rs r : Z) : option Z :=
  b <- RID2RSET r ;; Some (Z.lor rs b).
Definition rset_clear (rs r : Z) : option Z :=
  b <- RID2RSET r ;; Some (Z.land rs (u32 (Z.lnot b))).
Definition rset_exclude (rs r : Z) : option Z :=
  b <- RID2RSET r ;; Some (Z.land rs (u32 (Z.lnot b))).

(** Modelled from the spec: [lj_fls] and [lj_ffs] are declared in lj_def.h,
    which is not among the sources.  The spec describes the two picks as
    "pick the highest set bit" and "pick the lowest set bit" of a 32-bit
    mask, with no behaviour defined for an empty mask.  The scans below
    walk the 32 bit positions from the top, respectively from the bottom,
    and stop at the first set bit; an empty mask gives no result. *)
Fixpoint scan_down (n : nat) (x : Z) : option Z :=
  match n with
  | O => None
  | S k => if Z.testbit x (Z.of_nat k) then Some (Z.of_nat k)
           else scan_down k x
  end.

Fixpoint scan_up (n : nat) (i : Z) (x : Z) : option Z :=
  match n with
  | O => None
  | S k => if Z.testbit x i then Some i else scan_up k (i + 1) x
  end.

Definition lj_fls (x : Z) : option Z := scan_down 32 x.
Definition lj_ffs (x : Z) : option Z := scan_up 32 0 x.

Definition rset_picktop (rs : Z) : option Z := option_map u32 (lj_fls rs).
Definition rset_pickbot (rs : Z) : option Z := option_map u32 (lj_ffs rs).

(** ** Register allocation cost *)

Definition REGCOST_PHI_WEIGHT : Z := 64.

(** [RegCost] is a [uint32_t], [IRRef1] a [uint16_t]. *)
Definition REGCOST (cost ref : Z) : Z :=
  u32 (u32 ref + u32 (Z.shiftl (u32 cost) 16)).
Definition regcost_ref (rc : Z) : Z := u16 rc.

Section RegCost.
(** [IRT_ISPHI] is the phi flag of an IR type byte.  It is defined in
    lj_ir.h, which is not among the sources, and stays a parameter. *)
Variable IRT_ISPHI : Z.

Definition REGCOST_T (t : Z) : Z :=
  u32 (u32 (Z.land t IRT_ISPHI) *
       (u32 (Z.shiftl (u32 REGCOST_PHI_WEIGHT) 16) / u32 IRT_ISPHI)).
Definition REGCOST_REF_T (ref t : Z) : Z :=
  u32 (REGCOST ref ref + REGCOST_T t).

(** The phi penalty of a value of type [t] as the allocator's cost model
    describes it: [REGCOST_PHI_WEIGHT] when the phi flag is set in [t],
    nothing otherwise. *)
Definition phi_weight (t : Z) : Z :=
  if Z.land t IRT_ISPHI =? 0 then 0 else REGCOST_PHI_WEIGHT.

(** The sort key the cost model assigns to a value. *)
Definition cost_key (ref t : Z) : Z := ref + phi_weight t.

(** Picking the smaller of two costs picks a value of smallest key:
    whichever side the unsigned comparison of the two costs favours, that
    side's key is not above the other's. *)
Definition min_cost_has_min_key (ref1 t1 ref2 t2 : Z) : Prop :=
  (REGCOST_REF_T ref1 t1 <= REGCOST_REF_T ref2 t2 ->
   cost_key ref1 t1 <= cost_key ref2 t2) /\
  (REGCOST_REF_T ref2 t2 <= REGCOST_REF_T ref1 t1 ->
   cost_key ref2 t2 <= cost_key ref1 t1).
End RegCost.

(** ** Exit stubs *)

(** The part of [jit_State] the header reads: the table of exit stub group
    base addresses.  An address is a number, [NULL] is 0. *)
Record jit_State : Type := mk_jit_State { exitstubgroup : list Z }.

Section ExitStub.
(** Both constants come from the CPU specific header lj_target_x86.h,
    which is not among the sources. *)
Variables EXITSTUBS_PER_GROUP EXITSTUB_SPACING : Z.

(** [exitno] is an [ExitNo], a [uint32_t]: quotient, remainder and the
    product with the spacing are unsigned 32-bit operations.  There is no
    result when the divisor is zero, when the group index lies outside
    the table, or when the assertion on the group's base fails. *)
Definition exitstub_addr (J : jit_State) (exitno : Z) : option Z :=
  if u32 EXITSTUBS_PER_GROUP =? 0 then None
  else
    match nth_error (exitstubgroup J)
                    (Z.to_nat (exitno / u32 EXITSTUBS_PER_GROUP)) with
    | None => None
    | Some base =>
        if base =? 0 then None
        else Some (base + u32 (u32 EXITSTUB_SPACING *
                               (exitno mod u32 EXITSTUBS_PER_GROUP)))
    end.
End ExitStub.

(** The range claim at one input: the range is built, the membership test
    is carried out, and it answers true exactly inside [lo, hi). *)
Definition range_test_agrees (lo hi r : Z) : Prop :=
  exists rs b,
    RSET_RANGE lo hi = Some rs /\
    rset_test rs r = Some b /\
    (truthy b = true <-> lo <= r < hi).

(** ** Bit-level reasoning *)

Lemma RID_MASK_ones : RID_MASK = Z.ones 7.
Proof. reflexivity. Qed.

Lemma RID_NONE_pow2 : RID_NONE = 2 ^ 7.
Proof. reflexivity. Qed.

Lemma RID_INIT_val : RID_INIT = 0xff.
Proof. reflexivity. Qed.

Lemma testbit_RID_NONE (i : Z) : Z.testbit RID_NONE i = (i =? 7).
Proof.
  rewrite RID_NONE_pow2, Z.pow2_bits_eqb by lia. apply Z.eqb_sym.
Qed.

Lemma testbit_RID_MASK (i : Z) : 0 <= i -> Z.testbit RID_MASK i = (i <? 7).
Proof.
  intros Hi. rewrite RID_MASK_ones. apply Z.testbit_ones_nonneg; lia.
Qed.

Lemma land_RID_MASK (r : Z) : Z.land r RID_MASK = r mod 2 ^ 7.
Proof. rewrite RID_MASK_ones. apply Z.land_ones. lia. Qed.

Lemma land_RID_NONE_cases (r : Z) :
  Z.land r RID_NONE = (if Z.testbit r 7 then RID_NONE else 0).
Proof.
  apply Z.bits_inj'. intros i Hi.
  rewrite Z.land_spec, testbit_RID_NONE.
  destruct (Z.eqb_spec i 7) as [->|Hne].
  - destruct (Z.testbit r 7); reflexivity.
  - rewrite andb_false_r.
    destruct (Z.testbit r 7);
      [rewrite testbit_RID_NONE; symmetry; apply Z.eqb_neq; exact Hne
      | symmetry; apply Z.bits_0].
Qed.

Lemma u32_small (x : Z) : 0 <= x < 2 ^ 32 -> u32 x = x.
Proof. intros H. unfold u32. apply Z.mod_small. exact H. Qed.

Lemma ra_gethint_low7 (r : Z) : ra_gethint r = r mod 2 ^ 7.
Proof.
  unfold ra_gethint. rewrite land_RID_MASK.
  apply u32_small.
  pose proof (Z.mod_pos_bound r (2 ^ 7) ltac:(lia)). lia.
Qed.

Lemma testbit_ra_sethint (rr r i : Z) :
  0 <= i ->
  Z.testbit (ra_sethint rr r) i = (i <? 8) && (Z.testbit r i || (i =? 7)).
Proof.
  intros Hi. unfold ra_sethint, u8.
  rewrite Z.testbit_mod_pow2 by lia.
  rewrite Z.lor_spec, testbit_RID_NONE. reflexivity.
Qed.

(** ** Register/hint encoding: properties *)

(** C9: for every 8-bit register id [r] (so in particular for every real
    register number in [0,31]) exactly one of [ra_noreg r] and
    [ra_hasreg r] holds; a real register number is on the allocated side. *)
Theorem ra_noreg_hasreg_exclusive (r : Z) :
  0 <= r < 256 ->
  xorb (truthy (ra_noreg r)) (truthy (ra_hasreg r)) = true /\
  (r <= 31 -> truthy (ra_hasreg r) = true /\ truthy (ra_noreg r) = false).
Proof.
  intros Hr. unfold ra_noreg, ra_hasreg, c_not, truthy.
  split.
  - destruct (Z.land r RID_NONE =? 0); reflexivity.
  - intros Hreal.
    assert (Hbit : Z.testbit r 7 = false).
    { apply Z.testbit_false; [lia|].
      rewrite Z.mod_small; [apply Z.div_small; simpl; lia|].
      rewrite Z.div_small; simpl; lia. }
    rewrite land_RID_NONE_cases, Hbit. split; reflexivity.
Qed.

Lemma ra_noreg_hasreg_exclusive_witness :
  0 <= 17 < 256 /\
  (xorb (truthy (ra_noreg 17)) (truthy (ra_hasreg 17)) = true /\
   (17 <= 31 ->
    truthy (ra_hasreg 17) = true /\ truthy (ra_noreg 17) = false)).
Proof. split; [lia | apply (ra_noreg_hasreg_exclusive 17); lia]. Defined.

(** C6: after [ra_sethint(rr, r)], [ra_gethint(rr)] is the low 7 bits of
    [r] and [ra_noreg(rr)] is true, whatever [rr] held before. *)
Theorem ra_sethint_gethint (rr r : Z) :
  0 <= r < 2 ^ 32 ->
  ra_gethint (ra_sethint rr r) = Z.land r RID_MASK /\
  ra_gethint (ra_sethint rr r) = r mod 2 ^ 7 /\
  truthy (ra_noreg (ra_sethint rr r)) = true.
Proof.
  intros Hr.
  assert (Hlow : ra_gethint (ra_sethint rr r) = r mod 2 ^ 7).
  { rewrite ra_gethint_low7, <- !land_RID_MASK.
    apply Z.bits_inj'. intros i Hi.
    rewrite !Z.land_spec, testbit_ra_sethint, testbit_RID_MASK by lia.
    destruct (Z.ltb_spec i 7) as [Hlt|Hge].
    - replace (i <? 8) with true by (symmetry; apply Z.ltb_lt; lia).
      replace (i =? 7) with false by (symmetry; apply Z.eqb_neq; lia).
      rewrite orb_false_r. reflexivity.
    - rewrite !andb_false_r. reflexivity. }
  split; [rewrite Hlow, land_RID_MASK; reflexivity|].
  split; [exact Hlow|].
  unfold truthy, ra_noreg.
  rewrite land_RID_NONE_cases, testbit_ra_sethint by lia.
  change (7 =? 7) with true. rewrite orb_true_r. reflexivity.
Qed.

Lemma ra_sethint_gethint_witness :
  0 <= 0x123 < 2 ^ 32 /\
  (ra_gethint (ra_sethint 0 0x123) = Z.land 0x123 RID_MASK /\
   ra_gethint (ra_sethint 0 0x123) = 0x123 mod 2 ^ 7 /\
   truthy (ra_noreg (ra_sethint 0 0x123)) = true).
Proof. split; [lia | apply (ra_sethint_gethint 0 0x123); lia]. Defined.

(** C10: when the low 7 bits of [r] are all ones, [ra_sethint] stores the
    sentinel [RID_INIT] itself, so [ra_hashint] answers false although
    [ra_gethint] still reads 127. *)
Theorem ra_sethint_127_is_init (rr r : Z) :
  0 <= r < 2 ^ 32 ->
  Z.land r 0x7f = 0x7f ->
  ra_sethint rr r = RID_INIT /\
  ra_sethint rr r = 0xff /\
  truthy (ra_hashint (ra_sethint rr r)) = false /\
  ra_gethint (ra_sethint rr r) = 127.
Proof.
  intros Hr Hlow.
  assert (Hinit : ra_sethint rr r = RID_INIT).
  { apply Z.bits_inj'. intros i Hi.
    rewrite testbit_ra_sethint by lia.
    rewrite RID_INIT_val. change 0xff with (Z.ones 8).
    rewrite Z.testbit_ones_nonneg by lia.
    destruct (Z.ltb_spec i 8) as [Hlt|Hge]; [|reflexivity].
    destruct (Z.eqb_spec i 7) as [->|Hne]; [apply orb_true_r|].
    rewrite orb_false_r.
    assert (Hb : Z.testbit (Z.land r 0x7f) i = true).
    { rewrite Hlow. change 0x7f with (Z.ones 7).
      apply Z.ones_spec_low. lia. }
    rewrite Z.land_spec in Hb. apply andb_prop in Hb. simpl. apply Hb. }
  rewrite Hinit. repeat split; reflexivity.
Qed.

Lemma ra_sethint_127_is_init_witness :
  0 <= 0x17f < 2 ^ 32 /\
  Z.land 0x17f 0x7f = 0x7f /\
  (ra_sethint 5 0x17f = RID_INIT /\
   ra_sethint 5 0x17f = 0xff /\
   truthy (ra_hashint (ra_sethint 5 0x17f)) = false /\
   ra_gethint (ra_sethint 5 0x17f) = 127).
Proof.
  split; [lia|]. split; [reflexivity|].
  apply (ra_sethint_127_is_init 5 0x17f); [lia | reflexivity].
Defined.

(** ** Packed register and spill slot: properties *)

Lemma REGSP_small (r s : Z) :
  0 <= r <= 255 -> 0 <= s < 2 ^ 24 -> REGSP r s = r + s * 2 ^ 8.
Proof.
  intros Hr Hs. unfold REGSP.
  rewrite Z.shiftl_mul_pow2 by lia.
  rewrite (u32_small (s * 2 ^ 8)) by lia.
  apply u32_small. lia.
Qed.

Lemma land_clear_low7 (rs : Z) :
  Z.land rs (Z.lnot (REGSP RID_MASK 0)) = rs - rs mod 2 ^ 7.
Proof.
  change (REGSP RID_MASK 0) with RID_MASK.
  rewrite <- Z.sub_land_same_l, land_RID_MASK. reflexivity.
Qed.

Lemma div128_byte (rs : Z) : 128 <= rs <= 255 -> rs / 2 ^ 7 = 1.
Proof.
  intros Hrs. symmetry. apply Z.div_unique with (r := rs - 128); lia.
Qed.

Lemma regsp_used_false_range (rs : Z) :
  truthy (regsp_used rs) = false <-> 128 <= rs <= 255.
Proof.
  unfold regsp_used, c_ne, truthy. rewrite land_clear_low7.
  change (REGSP RID_NONE 0) with 128.
  destruct (Z.eqb_spec (rs - rs mod 2 ^ 7) 128) as [Heq|Hne]; simpl.
  - split; [intros _|reflexivity].
    pose proof (Z.mod_pos_bound rs (2 ^ 7) ltac:(lia)). lia.
  - split; [discriminate|]. intros Hrange. exfalso. apply Hne.
    pose proof (div128_byte rs Hrange) as Hq.
    pose proof (Z.div_mod rs (2 ^ 7) ltac:(lia)) as Hdm.
    rewrite Hq in Hdm. lia.
Qed.

Lemma ra_noreg_regsp_reg (rs : Z) :
  truthy (ra_noreg (regsp_reg rs)) = Z.testbit rs 7.
Proof.
  unfold truthy, ra_noreg, regsp_reg.
  rewrite land_RID_NONE_cases, Z.land_spec.
  change (Z.testbit 255 7) with true. rewrite andb_true_r.
  destruct (Z.testbit rs 7); reflexivity.
Qed.

Lemma testbit7_byte (rs : Z) :
  0 <= rs <= 255 -> (Z.testbit rs 7 = true <-> 128 <= rs).
Proof.
  intros Hrs. rewrite Z.testbit_true by lia.
  destruct (Z_lt_le_dec rs 128) as [Hlt|Hge].
  - rewrite Z.div_small by lia. change (0 mod 2) with 0. lia.
  - rewrite div128_byte by lia. change (1 mod 2) with 1. lia.
Qed.

(** C4: the "is used" test fails exactly when [rs] with its low 7 bits
    cleared is the pattern [REGSP(RID_NONE, SPS_NONE)], that is: the NONE
    bit of the register byte is set and the spill slot is 0.  The initial
    value [REGSP_INIT] is such a value. *)
Theorem regsp_used_false_iff (rs : Z) :
  0 <= rs < 2 ^ 32 ->
  (truthy (regsp_used rs) = false <->
   Z.ldiff rs RID_MASK = REGSP RID_NONE SPS_NONE) /\
  (truthy (regsp_used rs) = false <->
   truthy (ra_noreg (regsp_reg rs)) = true /\ regsp_spill rs = SPS_NONE) /\
  REGSP_INIT = REGSP RID_INIT SPS_NONE /\
  truthy (regsp_used REGSP_INIT) = false.
Proof.
  intros Hrs. split; [|split; [|split; reflexivity]].
  - rewrite Z.ldiff_land. unfold regsp_used, c_ne, truthy.
    change (REGSP RID_MASK 0) with RID_MASK.
    change (REGSP RID_NONE 0) with (REGSP RID_NONE SPS_NONE).
    destruct (Z.eqb_spec (Z.land rs (Z.lnot RID_MASK))
                         (REGSP RID_NONE SPS_NONE)); simpl;
      split; intros H; (reflexivity || discriminate || assumption
                        || contradiction).
  - rewrite regsp_used_false_range, ra_noreg_regsp_reg.
    unfold regsp_spill, SPS_NONE. rewrite Z.shiftr_div_pow2 by lia.
    split.
    + intros Hrange. split.
      * apply testbit7_byte; lia.
      * apply Z.div_small. lia.
    + intros [Hbit Hslot].
      assert (Hbyte : rs <= 255).
      { pose proof (Z.div_mod rs (2 ^ 8) ltac:(lia)) as Hdm.
        pose proof (Z.mod_pos_bound rs (2 ^ 8) ltac:(lia)).
        rewrite Hslot in Hdm. lia. }
      split; [apply testbit7_byte; [lia | exact Hbit] | exact Hbyte].
Qed.

Lemma regsp_used_false_iff_witness :
  0 <= 0x85 < 2 ^ 32 /\
  ((truthy (regsp_used 0x85) = false <->
    Z.ldiff 0x85 RID_MASK = REGSP RID_NONE SPS_NONE) /\
   (truthy (regsp_used 0x85) = false <->
    truthy (ra_noreg (regsp_reg 0x85)) = true /\
    regsp_spill 0x85 = SPS_NONE) /\
   REGSP_INIT = REGSP RID_INIT SPS_NONE /\
   truthy (regsp_used REGSP_INIT) = false).
Proof. split; [lia | apply (regsp_used_false_iff 0x85); lia]. Defined.

(** C5: for a register byte [r] and a spill slot [s] that fits the 24 bits
    a [RegSP] has above the register byte, [regsp_reg] and [regsp_spill]
    give back [r] and [s] from [REGSP(r, s)], and [ra_hasspill] of the
    extracted slot is true exactly when [s] is not 0.  Register 3 with
    slot 0 unpacks to register 3, slot 0, without a spill slot. *)
Theorem REGSP_roundtrip (r s : Z) :
  0 <= r <= 255 ->
  0 <= s < 2 ^ 24 ->
  regsp_reg (REGSP r s) = r /\
  regsp_spill (REGSP r s) = s /\
  (truthy (ra_hasspill (regsp_spill (REGSP r s))) = true <-> s <> 0) /\
  regsp_reg (REGSP 3 0) = 3 /\
  regsp_spill (REGSP 3 0) = 0 /\
  truthy (ra_hasspill (regsp_spill (REGSP 3 0))) = false.
Proof.
  intros Hr Hs.
  assert (Hreg : regsp_reg (REGSP r s) = r).
  { unfold regsp_reg. rewrite REGSP_small by lia.
    change 255 with (Z.ones 8). rewrite Z.land_ones by lia.
    rewrite Z.mod_add by lia. apply Z.mod_small. lia. }
  assert (Hspill : regsp_spill (REGSP r s) = s).
  { unfold regsp_spill. rewrite REGSP_small by lia.
    rewrite Z.shiftr_div_pow2 by lia.
    rewrite Z.div_add by lia. rewrite Z.div_small by lia. lia. }
  split; [exact Hreg|]. split; [exact Hspill|].
  split; [|repeat split; reflexivity].
  rewrite Hspill. unfold ra_hasspill, c_ne, truthy, SPS_NONE.
  destruct (Z.eqb_spec s 0); simpl; split; intros H;
    (reflexivity || discriminate || assumption || contradiction).
Qed.

Lemma REGSP_roundtrip_witness :
  0 <= 0x83 <= 255 /\ 0 <= 7 < 2 ^ 24 /\
  (regsp_reg (REGSP 0x83 7) = 0x83 /\
   regsp_spill (REGSP 0x83 7) = 7 /\
   (truthy (ra_hasspill (regsp_spill (REGSP 0x83 7))) = true <-> 7 <> 0) /\
   regsp_reg (REGSP 3 0) = 3 /\
   regsp_spill (REGSP 3 0) = 0 /\
   truthy (ra_hasspill (regsp_spill (REGSP 3 0))) = false).
Proof.
  split; [lia | split; [lia | apply (REGSP_roundtrip 0x83 7); lia]].
Defined.

(** ** Register sets: properties *)

Lemma shl32_defined (x n : Z) :
  0 <= n <= 31 -> shl32 x n = Some (u32 (Z.shiftl x n)).
Proof.
  intros Hn. unfold shl32.
  replace (0 <=? n) with true by (symmetry; apply Z.leb_le; lia).
  replace (n <? 32) with true by (symmetry; apply Z.ltb_lt; lia).
  reflexivity.
Qed.

Lemma shr32_defined (x n : Z) :
  0 <= n <= 31 -> shr32 x n = Some (Z.shiftr x n).
Proof.
  intros Hn. unfold shr32.
  replace (0 <=? n) with true by (symmetry; apply Z.leb_le; lia).
  replace (n <? 32) with true by (symmetry; apply Z.ltb_lt; lia).
  reflexivity.
Qed.

Lemma land_1_bit0 (q : Z) : Z.land q 1 = Z.b2z (Z.testbit q 0).
Proof.
  change 1 with (Z.ones 1) at 1. rewrite Z.land_ones by lia.
  rewrite Z.bit0_mod. reflexivity.
Qed.

Lemma rset_test_testbit (rs r : Z) :
  0 <= r <= 31 ->
  rset_test rs r = Some (Z.b2z (Z.testbit rs r)).
Proof.
  intros Hr. unfold rset_test. rewrite shr32_defined by exact Hr.
  simpl. rewrite land_1_bit0, Z.shiftr_spec by lia. reflexivity.
Qed.

Lemma truthy_b2z (b : bool) : truthy (Z.b2z b) = b.
Proof. destruct b; reflexivity. Qed.

Lemma RID2RSET_defined (r : Z) : 0 <= r <= 31 -> RID2RSET r = Some (2 ^ r).
Proof.
  intros Hr. unfold RID2RSET. rewrite shl32_defined by exact Hr.
  rewrite Z.shiftl_mul_pow2, Z.mul_1_l by lia.
  rewrite u32_small; [reflexivity|].
  split; [apply Z.pow_nonneg; lia | apply Z.pow_lt_mono_r; lia].
Qed.

Lemma RSET_RANGE_defined (lo hi : Z) :
  0 <= lo <= 31 -> 0 <= hi - lo <= 31 ->
  RSET_RANGE lo hi = Some (u32 (Z.shiftl (Z.ones (hi - lo)) lo)).
Proof.
  intros Hlo Hw. unfold RSET_RANGE.
  rewrite RID2RSET_defined by exact Hw. simpl.
  rewrite shl32_defined by exact Hlo.
  rewrite Z.ones_equiv, <- Z.sub_1_r.
  rewrite (u32_small (2 ^ (hi - lo) - 1)); [reflexivity|].
  assert (0 < 2 ^ (hi - lo)) by (apply Z.pow_pos_nonneg; lia).
  assert (2 ^ (hi - lo) < 2 ^ 32) by (apply Z.pow_lt_mono_r; lia).
  lia.
Qed.

Lemma testbit_range_mask (lo hi r : Z) :
  0 <= lo -> 0 <= hi - lo -> 0 <= r <= 31 ->
  Z.testbit (u32 (Z.shiftl (Z.ones (hi - lo)) lo)) r = (lo <=? r) && (r <? hi).
Proof.
  intros Hlo Hw Hr. unfold u32.
  rewrite Z.testbit_mod_pow2 by lia.
  replace (r <? 32) with true by (symmetry; apply Z.ltb_lt; lia).
  rewrite andb_true_l, Z.shiftl_spec by lia.
  rewrite Z.testbit_ones by lia.
  lia.
Qed.

Example RSET_RANGE_low_half : RSET_RANGE 0 16 = Some 0xffff.
Proof. reflexivity. Qed.

Example RSET_RANGE_high_half : RSET_RANGE 16 32 = Some 0xffff0000.
Proof. reflexivity. Qed.

Example RSET_RANGE_empty : RSET_RANGE 5 5 = Some RSET_EMPTY.
Proof. reflexivity. Qed.

(** C7, as the code has it: [RSET_RANGE(lo, hi)] is the set of the
    registers [lo <= r < hi] whenever its two shifts are defined, that is
    for [lo <= 31] and [hi - lo <= 31].  This covers every range within
    [0, 32] apart from the full one, [RSET_RANGE(0, 32)], and the empty
    one at the top, [RSET_RANGE(32, 32)]. *)
Theorem RSET_RANGE_test (lo hi r : Z) :
  0 <= lo <= hi ->
  hi <= 32 ->
  lo <= 31 ->
  hi - lo <= 31 ->
  0 <= r <= 31 ->
  range_test_agrees lo hi r.
Proof.
  intros Hlohi Hhi Hlo Hw Hr. unfold range_test_agrees.
  eexists. eexists.
  split; [apply RSET_RANGE_defined; lia|].
  split; [apply rset_test_testbit; exact Hr|].
  rewrite truthy_b2z, testbit_range_mask by lia.
  rewrite andb_true_iff, Z.leb_le, Z.ltb_lt. reflexivity.
Qed.

Lemma RSET_RANGE_test_witness :
  0 <= 16 <= 32 /\ 32 <= 32 /\ 16 <= 31 /\ 32 - 16 <= 31 /\ 0 <= 20 <= 31 /\
  range_test_agrees 16 32 20.
Proof.
  repeat (split; [lia|]). apply (RSET_RANGE_test 16 32 20); lia.
Defined.

(** C7, as the claim has it, fails for the full range: the count of the
    shift in [RID2RSET(32 - 0)] is the width of [RegSet], so
    [RSET_RANGE(0, 32)] has no defined value and register 0 is not found
    in it. *)
Lemma RSET_RANGE_full_undefined :
  0 <= 0 <= 32 /\ 32 <= 32 /\ 0 <= 0 <= 31 /\
  RSET_RANGE 0 32 = None /\
  ~ range_test_agrees 0 32 0.
Proof.
  repeat (split; [lia|]). split; [reflexivity|].
  intros (rs & b & Hrange & _). discriminate Hrange.
Qed.

(** *** Bit scans *)

Lemma scan_down_some (n : nat) (x i : Z) :
  scan_down n x = Some i ->
  0 <= i < Z.of_nat n /\
  Z.testbit x i = true /\
  forall j, i < j < Z.of_nat n -> Z.testbit x j = false.
Proof.
  induction n as [|k IH]; simpl scan_down; [discriminate|].
  destruct (Z.testbit x (Z.of_nat k)) eqn:Hk.
  - intros Heq. injection Heq as <-.
    split; [lia|]. split; [exact Hk|]. intros j Hj. lia.
  - intros Heq. destruct (IH Heq) as (Hi & Hbit & Habove).
    split; [lia|]. split; [exact Hbit|].
    intros j Hj. destruct (Z.eq_dec j (Z.of_nat k)) as [->|Hne];
      [exact Hk | apply Habove; lia].
Qed.

Lemma scan_down_none (n : nat) (x : Z) :
  scan_down n x = None ->
  forall j, 0 <= j < Z.of_nat n -> Z.testbit x j = false.
Proof.
  induction n as [|k IH]; simpl scan_down; intros Hnone j Hj; [lia|].
  destruct (Z.testbit x (Z.of_nat k)) eqn:Hk; [discriminate|].
  destruct (Z.eq_dec j (Z.of_nat k)) as [->|Hne];
    [exact Hk | apply IH; [exact Hnone | lia]].
Qed.

Lemma scan_up_some (n : nat) (i0 x i : Z) :
  scan_up n i0 x = Some i ->
  i0 <= i < i0 + Z.of_nat n /\
  Z.testbit x i = true /\
  forall j, i0 <= j < i -> Z.testbit x j = false.
Proof.
  revert i0. induction n as [|k IH]; intros i0; simpl scan_up;
    [discriminate|].
  destruct (Z.testbit x i0) eqn:H0.
  - intros Heq. injection Heq as <-.
    split; [lia|]. split; [exact H0|]. intros j Hj. lia.
  - intros Heq. destruct (IH _ Heq) as (Hi & Hbit & Hbelow).
    split; [lia|]. split; [exact Hbit|].
    intros j Hj. destruct (Z.eq_dec j i0) as [->|Hne];
      [exact H0 | apply Hbelow; lia].
Qed.

Lemma scan_up_none (n : nat) (i0 x : Z) :
  scan_up n i0 x = None ->
  forall j, i0 <= j < i0 + Z.of_nat n -> Z.testbit x j = false.
Proof.
  revert i0. induction n as [|k IH]; intros i0; simpl scan_up;
    intros Hnone j Hj; [lia|].
  destruct (Z.testbit x i0) eqn:H0; [discriminate|].
  destruct (Z.eq_dec j i0) as [->|Hne];
    [exact H0 | apply (IH _ Hnone); lia].
Qed.

Lemma u32_bits_high (x j : Z) :
  0 <= x < 2 ^ 32 -> 32 <= j -> Z.testbit x j = false.
Proof.
  intros Hx Hj. rewrite <- (Z.mod_small x (2 ^ 32)) by exact Hx.
  apply Z.mod_pow2_bits_high. lia.
Qed.

Lemma nonzero_mask_has_bit (x : Z) :
  0 < x < 2 ^ 32 ->
  ~ (forall j, 0 <= j < 32 -> Z.testbit x j = false).
Proof.
  intros Hx Hall.
  assert (Hzero : x = 0).
  { apply Z.bits_inj'. intros j Hj. rewrite Z.bits_0.
    destruct (Z_lt_le_dec j 32);
      [apply Hall; lia | apply u32_bits_high; lia]. }
  lia.
Qed.

Lemma lj_fls_highest (x : Z) :
  0 < x < 2 ^ 32 ->
  exists top,
    lj_fls x = Some top /\ 0 <= top <= 31 /\
    Z.testbit x top = true /\
    forall j, top < j -> Z.testbit x j = false.
Proof.
  intros Hx. unfold lj_fls.
  destruct (scan_down 32 x) as [top|] eqn:Hscan.
  - destruct (scan_down_some _ _ _ Hscan) as (Hi & Hbit & Habove).
    exists top. split; [reflexivity|]. split; [lia|]. split; [exact Hbit|].
    intros j Hj. destruct (Z_lt_le_dec j 32);
      [apply Habove; lia | apply u32_bits_high; lia].
  - exfalso. apply (nonzero_mask_has_bit x Hx).
    exact (scan_down_none _ _ Hscan).
Qed.

Lemma lj_ffs_lowest (x : Z) :
  0 < x < 2 ^ 32 ->
  exists bot,
    lj_ffs x = Some bot /\ 0 <= bot <= 31 /\
    Z.testbit x bot = true /\
    forall j, j < bot -> Z.testbit x j = false.
Proof.
  intros Hx. unfold lj_ffs.
  destruct (scan_up 32 0 x) as [bot|] eqn:Hscan.
  - destruct (scan_up_some _ _ _ _ Hscan) as (Hi & Hbit & Hbelow).
    exists bot. split; [reflexivity|]. split; [lia|]. split; [exact Hbit|].
    intros j Hj. destruct (Z_lt_le_dec j 0);
      [apply Z.testbit_neg_r; lia | apply Hbelow; lia].
  - exfalso. apply (nonzero_mask_has_bit x Hx).
    intros j Hj. apply (scan_up_none _ _ _ Hscan). lia.
Qed.

(** C8: on a non-empty 32-bit register set, [rset_picktop] gives the index
    of the highest set bit and [rset_pickbot] the index of the lowest set
    bit.  Both are functions of the mask and of nothing else.  On the mask
    with bits 2, 5 and 9 set they give 9 and 2. *)
Theorem rset_pick_highest_lowest (rs : Z) :
  0 < rs < 2 ^ 32 ->
  (exists top bot,
     rset_picktop rs = Some top /\
     rset_pickbot rs = Some bot /\
     0 <= bot <= top /\ top <= 31 /\
     Z.testbit rs top = true /\
     (forall j, top < j -> Z.testbit rs j = false) /\
     Z.testbit rs bot = true /\
     (forall j, j < bot -> Z.testbit rs j = false)) /\
  rset_picktop (Z.lor (Z.shiftl 1 2) (Z.lor (Z.shiftl 1 5) (Z.shiftl 1 9)))
  = Some 9 /\
  rset_pickbot (Z.lor (Z.shiftl 1 2) (Z.lor (Z.shiftl 1 5) (Z.shiftl 1 9)))
  = Some 2.
Proof.
  intros Hrs. split; [|split; reflexivity].
  destruct (lj_fls_highest rs Hrs) as (top & Htop & Htr & Htb & Habove).
  destruct (lj_ffs_lowest rs Hrs) as (bot & Hbot & Hbr & Hbb & Hbelow).
  exists top, bot.
  unfold rset_picktop, rset_pickbot. rewrite Htop, Hbot. simpl option_map.
  rewrite !u32_small by lia.
  repeat split; try assumption; try lia.
  destruct (Z_lt_le_dec top bot) as [Hlt|Hle]; [|exact Hle].
  rewrite (Hbelow top Hlt) in Htb. discriminate.
Qed.

Lemma rset_pick_highest_lowest_witness :
  0 < 0x8010 < 2 ^ 32 /\
  ((exists top bot,
      rset_picktop 0x8010 = Some top /\
      rset_pickbot 0x8010 = Some bot /\
      0 <= bot <= top /\ top <= 31 /\
      Z.testbit 0x8010 top = true /\
      (forall j, top < j -> Z.testbit 0x8010 j = false) /\
      Z.testbit 0x8010 bot = true /\
      (forall j, j < bot -> Z.testbit 0x8010 j = false)) /\
   rset_picktop (Z.lor (Z.shiftl 1 2) (Z.lor (Z.shiftl 1 5) (Z.shiftl 1 9)))
   = Some 9 /\
   rset_pickbot (Z.lor (Z.shiftl 1 2) (Z.lor (Z.shiftl 1 5) (Z.shiftl 1 9)))
   = Some 2).
Proof. split; [lia | apply (rset_pick_highest_lowest 0x8010); lia]. Defined.

(** ** Register allocation cost: properties *)

Lemma u32_u16 (x : Z) : u16 (u32 x) = u16 x.
Proof.
  unfold u16, u32. apply Z.mod_mod_divide.
  exists (2 ^ 16). reflexivity.
Qed.

Lemma REGCOST_same (ref : Z) :
  0 <= ref < 2 ^ 16 -> REGCOST ref ref = ref + ref * 2 ^ 16.
Proof.
  intros Href. unfold REGCOST.
  rewrite (u32_small ref) by lia.
  rewrite Z.shiftl_mul_pow2 by lia.
  rewrite (u32_small (ref * 2 ^ 16)) by lia.
  apply u32_small. lia.
Qed.

Lemma cost_hi_half (ref key : Z) :
  0 <= ref < 2 ^ 16 -> Z.shiftr (ref + key * 2 ^ 16) 16 = key.
Proof.
  intros Href. rewrite Z.shiftr_div_pow2 by lia.
  rewrite Z.div_add by lia. rewrite Z.div_small by lia. lia.
Qed.

Lemma cost_lt_lex (ref1 key1 ref2 key2 : Z) :
  0 <= ref1 < 2 ^ 16 -> 0 <= ref2 < 2 ^ 16 ->
  (ref1 + key1 * 2 ^ 16 < ref2 + key2 * 2 ^ 16 <->
   key1 < key2 \/ (key1 = key2 /\ ref1 < ref2)).
Proof. intros H1 H2. lia. Qed.

Section RegCostProps.
Variable IRT_ISPHI : Z.
(** The phi flag is a single bit, low enough for the division in
    [REGCOST_T] to be exact. *)
Hypothesis IRT_ISPHI_bit : exists k, 0 <= k <= 22 /\ IRT_ISPHI = 2 ^ k.

Lemma land_IRT_ISPHI (t : Z) :
  Z.land t IRT_ISPHI = 0 \/ Z.land t IRT_ISPHI = IRT_ISPHI.
Proof.
  destruct IRT_ISPHI_bit as (k & Hk & ->).
  destruct (Z.testbit t k) eqn:Hbit; [right | left];
    apply Z.bits_inj'; intros i Hi;
    rewrite Z.land_spec, Z.pow2_bits_eqb by lia.
  - destruct (Z.eqb_spec k i) as [<-|Hne];
      [rewrite Hbit; reflexivity | apply andb_false_r].
  - rewrite Z.bits_0.
    destruct (Z.eqb_spec k i) as [<-|Hne];
      [rewrite Hbit; reflexivity | apply andb_false_r].
Qed.

Lemma IRT_ISPHI_range : 0 < IRT_ISPHI <= 2 ^ 22.
Proof.
  destruct IRT_ISPHI_bit as (k & Hk & ->).
  split; [apply Z.pow_pos_nonneg; lia | apply Z.pow_le_mono_r; lia].
Qed.

Lemma IRT_ISPHI_divides : IRT_ISPHI * (2 ^ 22 / IRT_ISPHI) = 2 ^ 22.
Proof.
  destruct IRT_ISPHI_bit as (k & Hk & ->).
  replace (2 ^ 22) with (2 ^ k * 2 ^ (22 - k))
    by (rewrite <- Z.pow_add_r by lia; f_equal; lia).
  rewrite (Z.mul_comm (2 ^ k) (2 ^ (22 - k))), Z.div_mul; [lia|].
  apply Z.pow_nonzero; lia.
Qed.

Lemma REGCOST_T_weight (t : Z) :
  REGCOST_T IRT_ISPHI t = phi_weight IRT_ISPHI t * 2 ^ 16.
Proof.
  unfold REGCOST_T, phi_weight.
  change (u32 (Z.shiftl (u32 REGCOST_PHI_WEIGHT) 16)) with (2 ^ 22).
  pose proof IRT_ISPHI_range as Hrange.
  rewrite (u32_small IRT_ISPHI) by lia.
  destruct (land_IRT_ISPHI t) as [-> | ->].
  - reflexivity.
  - replace (IRT_ISPHI =? 0) with false by (symmetry; apply Z.eqb_neq; lia).
    rewrite (u32_small IRT_ISPHI) by lia.
    rewrite IRT_ISPHI_divides. reflexivity.
Qed.

Lemma phi_weight_cases (t : Z) :
  phi_weight IRT_ISPHI t = 0 \/ phi_weight IRT_ISPHI t = 64.
Proof.
  unfold phi_weight. destruct (Z.land t IRT_ISPHI =? 0); [left | right];
    reflexivity.
Qed.

Lemma phi_weight_clear : phi_weight IRT_ISPHI 0 = 0.
Proof. reflexivity. Qed.

Lemma phi_weight_set : phi_weight IRT_ISPHI IRT_ISPHI = 64.
Proof.
  unfold phi_weight. rewrite Z.land_diag.
  pose proof IRT_ISPHI_range.
  replace (IRT_ISPHI =? 0) with false by (symmetry; apply Z.eqb_neq; lia).
  reflexivity.
Qed.

Lemma REGCOST_REF_T_val (ref t : Z) :
  0 <= ref < 2 ^ 16 ->
  REGCOST_REF_T IRT_ISPHI ref t
  = u32 (ref + cost_key IRT_ISPHI ref t * 2 ^ 16).
Proof.
  intros Href. unfold REGCOST_REF_T, cost_key.
  rewrite REGCOST_same, REGCOST_T_weight by exact Href.
  f_equal. lia.
Qed.

Lemma REGCOST_REF_T_nowrap (ref t : Z) :
  0 <= ref < 2 ^ 16 ->
  cost_key IRT_ISPHI ref t < 2 ^ 16 ->
  REGCOST_REF_T IRT_ISPHI ref t = ref + cost_key IRT_ISPHI ref t * 2 ^ 16.
Proof.
  intros Href Hkey. rewrite REGCOST_REF_T_val by exact Href.
  apply u32_small.
  assert (0 <= cost_key IRT_ISPHI ref t)
    by (unfold cost_key; destruct (phi_weight_cases t); lia).
  lia.
Qed.

Lemma REGCOST_REF_T_hi_half (ref t : Z) :
  0 <= ref < 2 ^ 16 ->
  Z.shiftr (REGCOST_REF_T IRT_ISPHI ref t) 16 = u16 (cost_key IRT_ISPHI ref t).
Proof.
  intros Href. rewrite REGCOST_REF_T_val by exact Href.
  unfold u32, u16.
  set (key := cost_key IRT_ISPHI ref t).
  pose proof (Z.div_mod key (2 ^ 16) ltac:(lia)) as Hdm.
  pose proof (Z.mod_pos_bound key (2 ^ 16) ltac:(lia)) as Hm.
  replace (ref + key * 2 ^ 16)
    with (ref + key mod 2 ^ 16 * 2 ^ 16 + key / 2 ^ 16 * 2 ^ 32) by lia.
  rewrite Z.mod_add by lia.
  rewrite Z.mod_small by lia.
  apply cost_hi_half. exact Href.
Qed.

Lemma REGCOST_REF_T_low_half (ref t : Z) :
  0 <= ref < 2 ^ 16 ->
  u16 (REGCOST_REF_T IRT_ISPHI ref t) = ref.
Proof.
  intros Href.
  rewrite REGCOST_REF_T_val, u32_u16 by exact Href.
  unfold u16. rewrite Z.mod_add by lia. apply Z.mod_small. exact Href.
Qed.

(** C2: the low 16 bits of a cost built by [REGCOST_REF_T] are the
    reference it was built from, with or without the phi penalty. *)
Theorem regcost_ref_REGCOST_REF_T (ref t : Z) :
  0 <= ref < 2 ^ 16 ->
  regcost_ref (REGCOST_REF_T IRT_ISPHI ref t) = ref.
Proof.
  intros Href. unfold regcost_ref. apply REGCOST_REF_T_low_half. exact Href.
Qed.

(** C1, as the code has it: when neither key [ref + weight] leaves the 16
    bits of the upper half of a cost, the unsigned order of two costs is
    the order of the keys, ties going to the smaller reference; so the
    smaller cost belongs to a value of smallest key, and its upper half is
    that key.  Reference 10 without phi (key 10) costs less than reference
    5 with phi (key 69), and reference 100 without phi (key 100) costs less
    than reference 200 with phi (key 264). *)
Theorem regcost_min_selects_min_key (ref1 t1 ref2 t2 : Z) :
  0 <= ref1 < 2 ^ 16 ->
  0 <= ref2 < 2 ^ 16 ->
  cost_key IRT_ISPHI ref1 t1 < 2 ^ 16 ->
  cost_key IRT_ISPHI ref2 t2 < 2 ^ 16 ->
  min_cost_has_min_key IRT_ISPHI ref1 t1 ref2 t2 /\
  (REGCOST_REF_T IRT_ISPHI ref1 t1 < REGCOST_REF_T IRT_ISPHI ref2 t2 <->
   cost_key IRT_ISPHI ref1 t1 < cost_key IRT_ISPHI ref2 t2 \/
   (cost_key IRT_ISPHI ref1 t1 = cost_key IRT_ISPHI ref2 t2 /\
    ref1 < ref2)) /\
  Z.shiftr (Z.min (REGCOST_REF_T IRT_ISPHI ref1 t1)
                  (REGCOST_REF_T IRT_ISPHI ref2 t2)) 16
  = Z.min (cost_key IRT_ISPHI ref1 t1) (cost_key IRT_ISPHI ref2 t2) /\
  (cost_key IRT_ISPHI 10 0 = 10 /\
   cost_key IRT_ISPHI 5 IRT_ISPHI = 69 /\
   REGCOST_REF_T IRT_ISPHI 10 0 < REGCOST_REF_T IRT_ISPHI 5 IRT_ISPHI /\
   regcost_ref (Z.min (REGCOST_REF_T IRT_ISPHI 10 0)
                      (REGCOST_REF_T IRT_ISPHI 5 IRT_ISPHI)) = 10) /\
  (cost_key IRT_ISPHI 200 IRT_ISPHI = 264 /\
   cost_key IRT_ISPHI 100 0 = 100 /\
   REGCOST_REF_T IRT_ISPHI 100 0 < REGCOST_REF_T IRT_ISPHI 200 IRT_ISPHI /\
   regcost_ref (Z.min (REGCOST_REF_T IRT_ISPHI 100 0)
                      (REGCOST_REF_T IRT_ISPHI 200 IRT_ISPHI)) = 100).
Proof.
  intros Href1 Href2 Hkey1 Hkey2.
  assert (Hord : forall ra ta rb tb,
             0 <= ra < 2 ^ 16 -> 0 <= rb < 2 ^ 16 ->
             cost_key IRT_ISPHI ra ta < 2 ^ 16 ->
             cost_key IRT_ISPHI rb tb < 2 ^ 16 ->
             (REGCOST_REF_T IRT_ISPHI ra ta < REGCOST_REF_T IRT_ISPHI rb tb <->
              cost_key IRT_ISPHI ra ta < cost_key IRT_ISPHI rb tb \/
              (cost_key IRT_ISPHI ra ta = cost_key IRT_ISPHI rb tb /\
               ra < rb))).
  { intros ra ta rb tb Ha Hb Hka Hkb.
    rewrite !REGCOST_REF_T_nowrap by assumption.
    apply cost_lt_lex; assumption. }
  assert (Hex : forall rn rp,
             0 <= rn < 2 ^ 16 -> 0 <= rp < 2 ^ 16 - 64 -> rn < rp + 64 ->
             REGCOST_REF_T IRT_ISPHI rn 0
             < REGCOST_REF_T IRT_ISPHI rp IRT_ISPHI /\
             regcost_ref (Z.min (REGCOST_REF_T IRT_ISPHI rn 0)
                                (REGCOST_REF_T IRT_ISPHI rp IRT_ISPHI))
             = rn).
  { intros rn rp Hn Hp Hlt.
    assert (Hc : REGCOST_REF_T IRT_ISPHI rn 0
                 < REGCOST_REF_T IRT_ISPHI rp IRT_ISPHI).
    { apply Hord; unfold cost_key;
        rewrite ?phi_weight_clear, ?phi_weight_set; lia. }
    split; [exact Hc|].
    rewrite Z.min_l by lia. apply REGCOST_REF_T_low_half. exact Hn. }
  split; [|split; [|split; [|split]]].
  - unfold min_cost_has_min_key.
    pose proof (Hord ref1 t1 ref2 t2 Href1 Href2 Hkey1 Hkey2).
    pose proof (Hord ref2 t2 ref1 t1 Href2 Href1 Hkey2 Hkey1).
    split; intros Hle; lia.
  - apply Hord; assumption.
  - rewrite !REGCOST_REF_T_nowrap by assumption.
    destruct (Z.min_spec (ref1 + cost_key IRT_ISPHI ref1 t1 * 2 ^ 16)
                         (ref2 + cost_key IRT_ISPHI ref2 t2 * 2 ^ 16))
      as [[Hlt ->] | [Hle ->]];
      rewrite cost_hi_half by assumption; lia.
  - unfold cost_key. rewrite phi_weight_clear, phi_weight_set.
    split; [reflexivity|]. split; [reflexivity|]. apply Hex; lia.
  - unfold cost_key. rewrite phi_weight_clear, phi_weight_set.
    split; [reflexivity|]. split; [reflexivity|]. apply Hex; lia.
Qed.

End RegCostProps.

Lemma regcost_ref_REGCOST_REF_T_witness :
  (exists k, 0 <= k <= 22 /\ 0x40 = 2 ^ k) /\
  0 <= 0x8123 < 2 ^ 16 /\
  regcost_ref (REGCOST_REF_T 0x40 0x8123 0x45) = 0x8123.
Proof.
  assert (Hbit : exists k, 0 <= k <= 22 /\ 0x40 = 2 ^ k)
    by (exists 6; split; [lia | reflexivity]).
  split; [exact Hbit|]. split; [lia|].
  apply (regcost_ref_REGCOST_REF_T 0x40 Hbit 0x8123 0x45). lia.
Defined.

Lemma regcost_min_selects_min_key_witness :
  (exists k, 0 <= k <= 22 /\ 0x40 = 2 ^ k) /\
  0 <= 0x8010 < 2 ^ 16 /\
  0 <= 0x8003 < 2 ^ 16 /\
  cost_key 0x40 0x8010 0 < 2 ^ 16 /\
  cost_key 0x40 0x8003 0x40 < 2 ^ 16 /\
  min_cost_has_min_key 0x40 0x8010 0 0x8003 0x40 /\
  Z.shiftr (Z.min (REGCOST_REF_T 0x40 0x8010 0)
                  (REGCOST_REF_T 0x40 0x8003 0x40)) 16
  = Z.min (cost_key 0x40 0x8010 0) (cost_key 0x40 0x8003 0x40).
Proof.
  assert (Hbit : exists k, 0 <= k <= 22 /\ 0x40 = 2 ^ k)
    by (exists 6; split; [lia | reflexivity]).
  assert (Hk1 : cost_key 0x40 0x8010 0 < 2 ^ 16) by reflexivity.
  assert (Hk2 : cost_key 0x40 0x8003 0x40 < 2 ^ 16) by reflexivity.
  split; [exact Hbit|]. split; [lia|]. split; [lia|].
  split; [exact Hk1|]. split; [exact Hk2|].
  destruct (regcost_min_selects_min_key 0x40 Hbit 0x8010 0 0x8003 0x40
              ltac:(lia) ltac:(lia) Hk1 Hk2) as (Hmin & _ & Hhi & _).
  split; [exact Hmin | exact Hhi].
Defined.

(** C1, as the claim has it, fails where the key does not fit the upper
    half: reference 65500 with phi has key 65564, which wraps to 28 in the
    32-bit cost, so its cost is below the cost of reference 100 without phi
    (key 100), and the minimum picks the value of larger key.  The phi flag
    is 0x40, the value LuaJIT's lj_ir.h gives it. *)
Lemma regcost_min_key_wraps :
  0 <= 65500 < 2 ^ 16 /\ 0 <= 100 < 2 ^ 16 /\
  phi_weight 0x40 0x40 = REGCOST_PHI_WEIGHT /\ phi_weight 0x40 0 = 0 /\
  REGCOST_REF_T 0x40 65500 0x40 = 65500 + 28 * 2 ^ 16 /\
  REGCOST_REF_T 0x40 100 0 = 100 + 100 * 2 ^ 16 /\
  REGCOST_REF_T 0x40 65500 0x40 < REGCOST_REF_T 0x40 100 0 /\
  cost_key 0x40 100 0 < cost_key 0x40 65500 0x40 /\
  ~ min_cost_has_min_key 0x40 65500 0x40 100 0.
Proof.
  repeat (split; [first [lia | reflexivity]|]).
  intros [Hmin _].
  assert (Hle : REGCOST_REF_T 0x40 65500 0x40 <= REGCOST_REF_T 0x40 100 0)
    by (vm_compute; discriminate).
  specialize (Hmin Hle). vm_compute in Hmin. apply Hmin. reflexivity.
Qed.

(** ** Exit stubs: properties *)

Lemma exitstub_addr_defined (G S : Z) (J : jit_State) (e base : Z) :
  0 < G < 2 ^ 32 ->
  0 <= S < 2 ^ 32 ->
  S * (G - 1) < 2 ^ 32 ->
  0 <= e < 2 ^ 32 ->
  nth_error (exitstubgroup J) (Z.to_nat (e / G)) = Some base ->
  base <> 0 ->
  exitstub_addr G S J e = Some (base + S * (e mod G)).
Proof.
  intros HG HS Hspan He Hgroup Hbase. unfold exitstub_addr.
  rewrite (u32_small G), (u32_small S) by lia.
  replace (G =? 0) with false by (symmetry; apply Z.eqb_neq; lia).
  rewrite Hgroup.
  replace (base =? 0) with false by (symmetry; apply Z.eqb_neq; exact Hbase).
  pose proof (Z.mod_pos_bound e G ltac:(lia)) as Hmod.
  rewrite u32_small; [reflexivity|]. nia.
Qed.

(** C3: for an exit number [e] whose group [e / G] has been generated (the
    table holds a base address for it that is not [NULL]),
    [exitstub_addr] returns that base plus [S * (e mod G)].  With 16 stubs
    per group spaced 32 bytes apart, exit 20 lies in group 1 at offset 128
    and exit 15 in group 0 at offset 480. *)
Theorem exitstub_addr_spec (G S : Z) (J : jit_State) (e base : Z) :
  0 < G < 2 ^ 32 ->
  0 <= S < 2 ^ 32 ->
  S * (G - 1) < 2 ^ 32 ->
  0 <= e < 2 ^ 32 ->
  nth_error (exitstubgroup J) (Z.to_nat (e / G)) = Some base ->
  base <> 0 ->
  exitstub_addr G S J e = Some (base + S * (e mod G)) /\
  (G = 16 -> S = 32 -> e = 20 ->
   e / G = 1 /\ exitstub_addr G S J e = Some (base + 128)) /\
  (G = 16 -> S = 32 -> e = 15 ->
   e / G = 0 /\ exitstub_addr G S J e = Some (base + 480)).
Proof.
  intros HG HS Hspan He Hgroup Hbase.
  pose proof (exitstub_addr_defined G S J e base HG HS Hspan He Hgroup Hbase)
    as Haddr.
  split; [exact Haddr|].
  split; intros -> -> ->; (split; [reflexivity | exact Haddr]).
Qed.

Lemma exitstub_addr_spec_witness :
  0 < 16 < 2 ^ 32 /\ 0 <= 32 < 2 ^ 32 /\ 32 * (16 - 1) < 2 ^ 32 /\
  0 <= 20 < 2 ^ 32 /\
  nth_error (exitstubgroup (mk_jit_State [0x7000; 0x9000]))
            (Z.to_nat (20 / 16)) = Some 0x9000 /\
  0x9000 <> 0 /\
  exitstub_addr 16 32 (mk_jit_State [0x7000; 0x9000]) 20
  = Some (0x9000 + 128).
Proof.
  assert (Hgroup : nth_error (exitstubgroup (mk_jit_State [0x7000; 0x9000]))
                             (Z.to_nat (20 / 16)) = Some 0x9000)
    by reflexivity.
  repeat (split; [first [lia | exact Hgroup]|]).
  destruct (exitstub_addr_spec 16 32 (mk_jit_State [0x7000; 0x9000]) 20
              0x9000 ltac:(lia) ltac:(lia) ltac:(lia) ltac:(lia) Hgroup
              ltac:(lia)) as (_ & H20 & _).
  apply H20; reflexivity.
Defined.

(** * Further properties of the encodings *)

(** ** Hints *)

Lemma lor_RID_NONE_low7 (r : Z) :
  Z.lor (Z.land r RID_MASK) RID_NONE = r mod 2 ^ 7 + 2 ^ 7.
Proof.
  assert (Hdisj : Z.land (Z.land r RID_MASK) RID_NONE = 0).
  { apply Z.bits_inj'. intros i Hi.
    rewrite !Z.land_spec, testbit_RID_NONE, testbit_RID_MASK, Z.bits_0 by lia.
    destruct (Z.eqb_spec i 7) as [->|Hne];
      [rewrite andb_false_r; reflexivity | apply andb_false_r]. }
  rewrite <- Z.lxor_lor by exact Hdisj.
  rewrite <- Z.add_nocarry_lxor by exact Hdisj.
  rewrite land_RID_MASK. reflexivity.
Qed.

Lemma ra_sethint_val (rr r : Z) : ra_sethint rr r = r mod 2 ^ 7 + 2 ^ 7.
Proof.
  rewrite <- lor_RID_NONE_low7.
  apply Z.bits_inj'. intros i Hi.
  rewrite testbit_ra_sethint, Z.lor_spec, Z.land_spec, testbit_RID_NONE,
    testbit_RID_MASK by lia.
  destruct (Z.ltb_spec i 7), (Z.ltb_spec i 8), (Z.eqb_spec i 7); try lia;
    rewrite ?andb_true_r, ?andb_false_r, ?orb_true_r, ?orb_false_r;
    reflexivity.
Qed.

Lemma ra_hasreg_byte (r : Z) :
  0 <= r < 256 -> (truthy (ra_hasreg r) = true <-> r <= 127).
Proof.
  intros Hr. unfold ra_hasreg, c_not, truthy.
  rewrite land_RID_NONE_cases.
  pose proof (testbit7_byte r ltac:(lia)) as Hbit.
  destruct (Z.testbit r 7); simpl; split; intros H;
    try reflexivity; try discriminate; lia.
Qed.

(** X1: [ra_sethint] stores a value in 128..255, and [ra_hashint] accepts
    it as a hint exactly when the low 7 bits of [r] are not all ones: every
    register number but 127 can be hinted. *)
Theorem ra_hashint_after_sethint (rr r : Z) :
  0 <= r < 2 ^ 32 ->
  128 <= ra_sethint rr r <= 255 /\
  (truthy (ra_hashint (ra_sethint rr r)) = true <->
   Z.land r RID_MASK <> RID_MASK).
Proof.
  intros Hr. rewrite land_RID_MASK, ra_sethint_val.
  pose proof (Z.mod_pos_bound r (2 ^ 7) ltac:(lia)) as Hm.
  split; [lia|].
  unfold ra_hashint, c_ne, truthy. rewrite RID_INIT_val.
  change RID_MASK with 127.
  destruct (Z.eqb_spec (r mod 2 ^ 7 + 2 ^ 7) 255); simpl; split; intros H;
    try reflexivity; try discriminate; lia.
Qed.

Lemma ra_hashint_after_sethint_witness :
  0 <= 0x105 < 2 ^ 32 /\
  (128 <= ra_sethint 0 0x105 <= 255 /\
   (truthy (ra_hashint (ra_sethint 0 0x105)) = true <->
    Z.land 0x105 RID_MASK <> RID_MASK)).
Proof. split; [lia | apply (ra_hashint_after_sethint 0 0x105); lia]. Defined.

(** X2: a register byte that passes [ra_hasreg] is a number below 128 and
    can be used without masking ([ra_gethint] leaves it alone); one that
    passes [ra_noreg] is the hint form [REGSP_HINT] of its own hint. *)
Theorem ra_hasreg_needs_no_mask (r : Z) :
  0 <= r < 256 ->
  (truthy (ra_hasreg r) = true -> r <= 127 /\ ra_gethint r = r) /\
  (truthy (ra_noreg r) = true ->
   128 <= r /\ r = REGSP_HINT (ra_gethint r) /\ r = ra_sethint r (ra_gethint r)).
Proof.
  intros Hr. split.
  - intros Hreg. apply ra_hasreg_byte in Hreg; [|exact Hr].
    split; [exact Hreg|]. rewrite ra_gethint_low7. apply Z.mod_small. lia.
  - intros Hno.
    assert (Hhi : 128 <= r).
    { apply testbit7_byte; [lia|].
      unfold ra_noreg, truthy in Hno. rewrite land_RID_NONE_cases in Hno.
      destruct (Z.testbit r 7); [reflexivity | discriminate]. }
    assert (Hm : r mod 2 ^ 7 = r - 128).
    { symmetry. apply Z.mod_unique with (q := 1); lia. }
    assert (Hmm : (r - 128) mod 2 ^ 7 = r - 128) by (apply Z.mod_small; lia).
    split; [exact Hhi|]. split.
    + unfold REGSP_HINT.
      rewrite ra_gethint_low7, <- land_RID_MASK, lor_RID_NONE_low7. lia.
    + rewrite ra_sethint_val, ra_gethint_low7, Hm, Hmm. lia.
Qed.

Lemma ra_hasreg_needs_no_mask_witness :
  0 <= 0x93 < 256 /\
  ((truthy (ra_hasreg 0x93) = true -> 0x93 <= 127 /\ ra_gethint 0x93 = 0x93) /\
   (truthy (ra_noreg 0x93) = true ->
    128 <= 0x93 /\ 0x93 = REGSP_HINT (ra_gethint 0x93) /\
    0x93 = ra_sethint 0x93 (ra_gethint 0x93))).
Proof. split; [lia | apply (ra_hasreg_needs_no_mask 0x93); lia]. Defined.

(** X3: [ra_samehint] compares the low 7 bits and nothing else: it is true
    exactly when both values have the same [ra_gethint].  So a register and
    the hint made from it by [ra_sethint] always count as the same hint. *)
Theorem ra_samehint_iff (r1 r2 : Z) :
  0 <= r1 < 2 ^ 32 ->
  0 <= r2 < 2 ^ 32 ->
  (truthy (ra_samehint r1 r2) = true <-> ra_gethint r1 = ra_gethint r2) /\
  truthy (ra_samehint (ra_sethint r2 r1) r1) = true.
Proof.
  intros Hr1 Hr2.
  assert (Hiff : forall a b,
             truthy (ra_samehint a b) = true <-> ra_gethint a = ra_gethint b).
  { intros a b. unfold ra_samehint, c_eq, truthy.
    rewrite !ra_gethint_low7, <- !land_RID_MASK.
    assert (Hx : Z.land (Z.lxor a b) RID_MASK
                 = Z.lxor (Z.land a RID_MASK) (Z.land b RID_MASK)).
    { apply Z.bits_inj'. intros i Hi.
      rewrite Z.lxor_spec, !Z.land_spec, Z.lxor_spec.
      destruct (Z.testbit a i), (Z.testbit b i), (Z.testbit RID_MASK i);
        reflexivity. }
    rewrite Hx, <- Z.lxor_eq_0_iff.
    destruct (Z.eqb_spec
                (Z.lxor (Z.land a RID_MASK) (Z.land b RID_MASK)) 0);
      simpl; split; intros H; try reflexivity; try discriminate;
      try assumption; contradiction. }
  split; [apply Hiff|].
  apply Hiff. rewrite !ra_gethint_low7, ra_sethint_val.
  rewrite Z.add_mod, Z.mod_mod, Z.mod_same, Z.add_0_r, Z.mod_mod by lia.
  reflexivity.
Qed.

Lemma ra_samehint_iff_witness :
  0 <= 0x85 < 2 ^ 32 /\ 0 <= 0x05 < 2 ^ 32 /\
  ((truthy (ra_samehint 0x85 0x05) = true <->
    ra_gethint 0x85 = ra_gethint 0x05) /\
   truthy (ra_samehint (ra_sethint 0x05 0x85) 0x85) = true).
Proof.
  split; [lia | split; [lia | apply (ra_samehint_iff 0x85 0x05); lia]].
Defined.

(** ** Packed register and spill slot *)

Lemma regsp_reg_mod (rs : Z) : regsp_reg rs = rs mod 2 ^ 8.
Proof.
  unfold regsp_reg. change 255 with (Z.ones 8). apply Z.land_ones. lia.
Qed.

Lemma regsp_spill_div (rs : Z) : regsp_spill rs = rs / 2 ^ 8.
Proof. unfold regsp_spill. apply Z.shiftr_div_pow2. lia. Qed.

(** X4: every 32-bit packed value is the packing of its own two parts:
    [regsp_reg] gives a byte, [regsp_spill] a 24-bit slot, and [REGSP] of
    the two gives the value back. *)
Theorem REGSP_of_parts (rs : Z) :
  0 <= rs < 2 ^ 32 ->
  0 <= regsp_reg rs <= 255 /\
  0 <= regsp_spill rs < 2 ^ 24 /\
  REGSP (regsp_reg rs) (regsp_spill rs) = rs.
Proof.
  intros Hrs. rewrite regsp_reg_mod, regsp_spill_div.
  pose proof (Z.mod_pos_bound rs (2 ^ 8) ltac:(lia)) as Hm.
  pose proof (Z.div_mod rs (2 ^ 8) ltac:(lia)) as Hdm.
  assert (Hq : 0 <= rs / 2 ^ 8 < 2 ^ 24).
  { split; [apply Z.div_pos; lia|].
    apply Z.div_lt_upper_bound; lia. }
  split; [lia|]. split; [exact Hq|].
  rewrite REGSP_small by lia. lia.
Qed.

Lemma REGSP_of_parts_witness :
  0 <= 0x1283 < 2 ^ 32 /\
  (0 <= regsp_reg 0x1283 <= 255 /\
   0 <= regsp_spill 0x1283 < 2 ^ 24 /\
   REGSP (regsp_reg 0x1283) (regsp_spill 0x1283) = 0x1283).
Proof. split; [lia | apply (REGSP_of_parts 0x1283); lia]. Defined.

(** X5: a value packed from a register byte [r] and a slot [s] counts as
    used exactly when it has a register or a spill slot, that is when
    [ra_hasreg r] or [ra_hasspill s] holds. *)
Theorem regsp_used_iff_reg_or_spill (r s : Z) :
  0 <= r <= 255 ->
  0 <= s < 2 ^ 24 ->
  (truthy (regsp_used (REGSP r s)) = true <->
   truthy (ra_hasreg r) = true \/ truthy (ra_hasspill s) = true).
Proof.
  intros Hr Hs.
  rewrite REGSP_small by lia.
  pose proof (regsp_used_false_range (r + s * 2 ^ 8)) as Hfalse.
  pose proof (ra_hasreg_byte r ltac:(lia)) as Hreg.
  assert (Hspill : truthy (ra_hasspill s) = true <-> s <> 0).
  { unfold ra_hasspill, c_ne, truthy, SPS_NONE.
    destruct (Z.eqb_spec s 0); simpl; split; intros H;
      try reflexivity; try discriminate; try assumption; contradiction. }
  rewrite Hreg, Hspill.
  destruct (truthy (regsp_used (r + s * 2 ^ 8))).
  - split; [intros _ | reflexivity].
    destruct (Z_le_gt_dec r 127) as [Hlow|Hhigh]; [left; exact Hlow|].
    right. intros Hz. assert (true = false) by (apply Hfalse; lia).
    discriminate.
  - split; [discriminate|].
    assert (128 <= r + s * 2 ^ 8 <= 255) by (apply Hfalse; reflexivity).
    intros [Hlow | Hne]; lia.
Qed.

Lemma regsp_used_iff_reg_or_spill_witness :
  0 <= 0x85 <= 255 /\ 0 <= 3 < 2 ^ 24 /\
  (truthy (regsp_used (REGSP 0x85 3)) = true <->
   truthy (ra_hasreg 0x85) = true \/ truthy (ra_hasspill 3) = true).
Proof.
  split; [lia | split; [lia | apply (regsp_used_iff_reg_or_spill 0x85 3); lia]].
Defined.

(** X6: [REGSP_HINT(r)] of a register number [r] below 128 is a packed
    value that is not used: it has no spill slot, its register byte fails
    [ra_hasreg], and the hint read back from it is [r]. *)
Theorem REGSP_HINT_unused (r : Z) :
  0 <= r <= 127 ->
  REGSP_HINT r = REGSP (ra_sethint 0 r) SPS_NONE /\
  truthy (regsp_used (REGSP_HINT r)) = false /\
  regsp_spill (REGSP_HINT r) = SPS_NONE /\
  truthy (ra_hasreg (regsp_reg (REGSP_HINT r))) = false /\
  ra_gethint (regsp_reg (REGSP_HINT r)) = r.
Proof.
  intros Hr.
  assert (Hval : REGSP_HINT r = r + 128).
  { unfold REGSP_HINT.
    replace r with (Z.land r RID_MASK) at 1
      by (rewrite land_RID_MASK; apply Z.mod_small; lia).
    rewrite lor_RID_NONE_low7, Z.mod_small by lia. lia. }
  assert (Hlow : (r + 128) mod 2 ^ 8 = r + 128) by (apply Z.mod_small; lia).
  rewrite Hval. split.
  - rewrite ra_sethint_val, Z.mod_small by lia.
    unfold SPS_NONE. rewrite REGSP_small by lia. lia.
  - split; [apply regsp_used_false_range; lia|].
    split; [rewrite regsp_spill_div; apply Z.div_small; lia|].
    rewrite regsp_reg_mod, Hlow. split.
    + pose proof (ra_hasreg_byte (r + 128) ltac:(lia)) as Hreg.
      destruct (truthy (ra_hasreg (r + 128))); [|reflexivity].
      assert (r + 128 <= 127) by (apply Hreg; reflexivity). lia.
    + rewrite ra_gethint_low7.
      replace (r + 128) with (r + 1 * 2 ^ 7) by lia.
      rewrite Z.mod_add by lia. apply Z.mod_small. lia.
Qed.

Lemma REGSP_HINT_unused_witness :
  0 <= 5 <= 127 /\
  (REGSP_HINT 5 = REGSP (ra_sethint 0 5) SPS_NONE /\
   truthy (regsp_used (REGSP_HINT 5)) = false /\
   regsp_spill (REGSP_HINT 5) = SPS_NONE /\
   truthy (ra_hasreg (regsp_reg (REGSP_HINT 5))) = false /\
   ra_gethint (regsp_reg (REGSP_HINT 5)) = 5).
Proof. split; [lia | apply (REGSP_HINT_unused 5); lia]. Defined.

(** ** Register sets: setting and clearing *)

Lemma u32_of_bits (x : Z) :
  0 <= x -> (forall j, 32 <= j -> Z.testbit x j = false) -> 0 <= x < 2 ^ 32.
Proof.
  intros Hx Hhigh.
  assert (Heq : x mod 2 ^ 32 = x).
  { apply Z.bits_inj'. intros i Hi.
    rewrite Z.testbit_mod_pow2 by lia.
    destruct (Z.ltb_spec i 32); [reflexivity|].
    rewrite Hhigh by lia. reflexivity. }
  pose proof (Z.mod_pos_bound x (2 ^ 32) ltac:(lia)). lia.
Qed.

Lemma rset_set_val (rs r : Z) :
  0 <= r <= 31 -> rset_set rs r = Some (Z.lor rs (2 ^ r)).
Proof.
  intros Hr. unfold rset_set. rewrite RID2RSET_defined by exact Hr.
  reflexivity.
Qed.

Lemma rset_clear_val (rs r : Z) :
  0 <= rs < 2 ^ 32 -> 0 <= r <= 31 ->
  rset_clear rs r = Some (Z.ldiff rs (2 ^ r)).
Proof.
  intros Hrs Hr. unfold rset_clear. rewrite RID2RSET_defined by exact Hr.
  simpl. f_equal. apply Z.bits_inj'. intros i Hi.
  rewrite Z.land_spec, Z.ldiff_spec. unfold u32.
  rewrite Z.testbit_mod_pow2, Z.lnot_spec by lia.
  destruct (Z.ltb_spec i 32); [reflexivity|].
  rewrite (u32_bits_high rs i) by lia. reflexivity.
Qed.

Lemma set_bit_range (rs r : Z) :
  0 <= rs < 2 ^ 32 -> 0 <= r <= 31 -> 0 <= Z.lor rs (2 ^ r) < 2 ^ 32.
Proof.
  intros Hrs Hr. apply u32_of_bits.
  - apply Z.lor_nonneg. split; [lia | apply Z.pow_nonneg; lia].
  - intros j Hj. rewrite Z.lor_spec, Z.pow2_bits_eqb by lia.
    rewrite (u32_bits_high rs j) by lia.
    apply Z.eqb_neq. lia.
Qed.

Lemma clear_bit_range (rs r : Z) :
  0 <= rs < 2 ^ 32 -> 0 <= r <= 31 -> 0 <= Z.ldiff rs (2 ^ r) <= rs.
Proof.
  intros Hrs Hr.
  assert (H0 : 0 <= Z.land rs (2 ^ r)) by (apply Z.land_nonneg; lia).
  assert (H1 : 0 <= Z.ldiff rs (2 ^ r)) by (apply Z.ldiff_nonneg; lia).
  rewrite Z.ldiff_land, <- Z.sub_land_same_l in *. lia.
Qed.

(** X7: [rset_set(rs, r)] for a register [r] in 0..31 leaves a 32-bit set
    in which [rset_test] finds [r] and answers for every other register as
    it did before. *)
Theorem rset_set_then_test (rs r r' : Z) :
  0 <= rs < 2 ^ 32 ->
  0 <= r <= 31 ->
  0 <= r' <= 31 ->
  exists rs',
    rset_set rs r = Some rs' /\
    0 <= rs' < 2 ^ 32 /\
    rset_test rs' r = Some 1 /\
    (r' <> r -> rset_test rs' r' = rset_test rs r').
Proof.
  intros Hrs Hr Hr'. exists (Z.lor rs (2 ^ r)).
  split; [apply rset_set_val; exact Hr|].
  split; [apply set_bit_range; assumption|].
  rewrite !rset_test_testbit by assumption.
  rewrite !Z.lor_spec, Z.pow2_bits_true, orb_true_r by lia.
  split; [reflexivity|]. intros Hne.
  rewrite Z.pow2_bits_false, orb_false_r by lia. reflexivity.
Qed.

Lemma rset_set_then_test_witness :
  0 <= 0x21 < 2 ^ 32 /\ 0 <= 3 <= 31 /\ 0 <= 5 <= 31 /\
  (exists rs',
     rset_set 0x21 3 = Some rs' /\
     0 <= rs' < 2 ^ 32 /\
     rset_test rs' 3 = Some 1 /\
     (5 <> 3 -> rset_test rs' 5 = rset_test 0x21 5)).
Proof.
  repeat (split; [lia|]). apply (rset_set_then_test 0x21 3 5); lia.
Defined.

(** X8: [rset_clear(rs, r)] for a register [r] in 0..31 leaves a set that
    is not larger, in which [rset_test] no longer finds [r] and answers for
    every other register as it did before; [rset_exclude(rs, r)] computes
    that same set. *)
Theorem rset_clear_then_test (rs r r' : Z) :
  0 <= rs < 2 ^ 32 ->
  0 <= r <= 31 ->
  0 <= r' <= 31 ->
  exists rs',
    rset_clear rs r = Some rs' /\
    rset_exclude rs r = Some rs' /\
    0 <= rs' <= rs /\
    rset_test rs' r = Some 0 /\
    (r' <> r -> rset_test rs' r' = rset_test rs r').
Proof.
  intros Hrs Hr Hr'. exists (Z.ldiff rs (2 ^ r)).
  split; [apply rset_clear_val; assumption|].
  split; [apply (rset_clear_val rs r); assumption|].
  split; [apply clear_bit_range; assumption|].
  rewrite !rset_test_testbit by assumption.
  rewrite !Z.ldiff_spec, Z.pow2_bits_true, andb_false_r by lia.
  split; [reflexivity|]. intros Hne.
  rewrite Z.pow2_bits_false, andb_true_r by lia. reflexivity.
Qed.

Lemma rset_clear_then_test_witness :
  0 <= 0x29 < 2 ^ 32 /\ 0 <= 3 <= 31 /\ 0 <= 5 <= 31 /\
  (exists rs',
     rset_clear 0x29 3 = Some rs' /\
     rset_exclude 0x29 3 = Some rs' /\
     0 <= rs' <= 0x29 /\
     rset_test rs' 3 = Some 0 /\
     (5 <> 3 -> rset_test rs' 5 = rset_test 0x29 5)).
Proof.
  repeat (split; [lia|]). apply (rset_clear_then_test 0x29 3 5); lia.
Defined.

Lemma rset_test_bit (rs r : Z) (b : bool) :
  0 <= r <= 31 -> rset_test rs r = Some (Z.b2z b) -> Z.testbit rs r = b.
Proof.
  intros Hr. rewrite rset_test_testbit by exact Hr.
  intros Heq. injection Heq as Heq.
  destruct (Z.testbit rs r), b; try reflexivity; discriminate.
Qed.

(** X9: setting and clearing one register undo each other: clearing after
    setting restores a set that did not hold [r], setting after clearing
    restores one that did; setting a member or clearing a non-member
    changes nothing. *)
Theorem rset_set_clear_inverse (rs r : Z) :
  0 <= rs < 2 ^ 32 ->
  0 <= r <= 31 ->
  (rset_test rs r = Some 0 ->
   (rs' <- rset_set rs r ;; rset_clear rs' r) = Some rs /\
   rset_clear rs r = Some rs) /\
  (rset_test rs r = Some 1 ->
   (rs' <- rset_clear rs r ;; rset_set rs' r) = Some rs /\
   rset_set rs r = Some rs).
Proof.
  intros Hrs Hr.
  pose proof (set_bit_range rs r Hrs Hr) as Hset.
  pose proof (clear_bit_range rs r Hrs Hr) as Hclr.
  split; intros Htest.
  - apply (rset_test_bit rs r false Hr) in Htest.
    rewrite rset_set_val by exact Hr. simpl obind.
    rewrite !rset_clear_val by assumption.
    split; f_equal; apply Z.bits_inj'; intros i Hi;
      rewrite ?Z.ldiff_spec, ?Z.lor_spec, Z.pow2_bits_eqb by lia;
      destruct (Z.eqb_spec r i) as [<-|Hne];
      rewrite ?Htest, ?orb_false_r, ?andb_true_r, ?andb_false_r;
      reflexivity.
  - apply (rset_test_bit rs r true Hr) in Htest.
    rewrite rset_clear_val by assumption. simpl obind.
    rewrite !rset_set_val by exact Hr.
    split; f_equal; apply Z.bits_inj'; intros i Hi;
      rewrite ?Z.lor_spec, ?Z.ldiff_spec, Z.pow2_bits_eqb by lia;
      destruct (Z.eqb_spec r i) as [<-|Hne];
      rewrite ?Htest, ?orb_false_r, ?orb_true_r, ?andb_true_r;
      reflexivity.
Qed.

Lemma rset_set_clear_inverse_witness :
  0 <= 0x29 < 2 ^ 32 /\ 0 <= 3 <= 31 /\
  ((rset_test 0x29 3 = Some 0 ->
    (rs' <- rset_set 0x29 3 ;; rset_clear rs' 3) = Some 0x29 /\
    rset_clear 0x29 3 = Some 0x29) /\
   (rset_test 0x29 3 = Some 1 ->
    (rs' <- rset_clear 0x29 3 ;; rset_set rs' 3) = Some 0x29 /\
    rset_set 0x29 3 = Some 0x29)).
Proof.
  repeat (split; [lia|]). apply (rset_set_clear_inverse 0x29 3); lia.
Defined.

(** ** Register sets: ranges and picks *)

Lemma testbit_range_mask_all (lo hi i : Z) :
  0 <= lo -> 0 <= hi - lo -> hi <= 32 -> 0 <= i ->
  Z.testbit (u32 (Z.shiftl (Z.ones (hi - lo)) lo)) i = (lo <=? i) && (i <? hi).
Proof.
  intros Hlo Hw Hhi Hi.
  destruct (Z_le_gt_dec i 31) as [Hlow|Hhigh].
  - apply testbit_range_mask; lia.
  - unfold u32. rewrite Z.mod_pow2_bits_high by lia. lia.
Qed.

Lemma range_mask_range (lo hi : Z) :
  0 <= u32 (Z.shiftl (Z.ones (hi - lo)) lo) < 2 ^ 32.
Proof. unfold u32. apply Z.mod_pos_bound. lia. Qed.

(** X10: two adjoining ranges make up the range that spans them: for
    [lo <= mid <= hi] the sets [RSET_RANGE(lo, mid)] and
    [RSET_RANGE(mid, hi)] have no register in common and their union is
    [RSET_RANGE(lo, hi)]. *)
Theorem RSET_RANGE_split (lo mid hi : Z) :
  0 <= lo <= mid ->
  mid <= hi ->
  hi <= 32 ->
  mid <= 31 ->
  hi - lo <= 31 ->
  exists a b c,
    RSET_RANGE lo mid = Some a /\
    RSET_RANGE mid hi = Some b /\
    RSET_RANGE lo hi = Some c /\
    Z.land a b = RSET_EMPTY /\
    Z.lor a b = c.
Proof.
  intros Hlo Hmid Hhi Hm Hw.
  do 3 eexists.
  split; [apply RSET_RANGE_defined; lia|].
  split; [apply RSET_RANGE_defined; lia|].
  split; [apply RSET_RANGE_defined; lia|].
  split; apply Z.bits_inj'; intros i Hi;
    rewrite ?Z.land_spec, ?Z.lor_spec, !testbit_range_mask_all by lia;
    [unfold RSET_EMPTY; rewrite Z.bits_0|]; lia.
Qed.

Lemma RSET_RANGE_split_witness :
  0 <= 0 <= 16 /\ 16 <= 24 /\ 24 <= 32 /\ 16 <= 31 /\ 24 - 0 <= 31 /\
  (exists a b c,
     RSET_RANGE 0 16 = Some a /\
     RSET_RANGE 16 24 = Some b /\
     RSET_RANGE 0 24 = Some c /\
     Z.land a b = RSET_EMPTY /\
     Z.lor a b = c).
Proof.
  repeat (split; [lia|]). apply (RSET_RANGE_split 0 16 24); lia.
Defined.

Lemma lj_fls_unique (x top : Z) :
  0 < x < 2 ^ 32 ->
  Z.testbit x top = true ->
  (forall j, top < j -> Z.testbit x j = false) ->
  lj_fls x = Some top.
Proof.
  intros Hx Hbit Habove.
  destruct (lj_fls_highest x Hx) as (t & Heq & _ & Htbit & Htabove).
  rewrite Heq. f_equal.
  destruct (Z.lt_trichotomy t top) as [Hlt | [Heq' | Hgt]];
    [|exact Heq'|].
  - rewrite (Htabove top Hlt) in Hbit. discriminate.
  - rewrite (Habove t Hgt) in Htbit. discriminate.
Qed.

Lemma lj_ffs_unique (x bot : Z) :
  0 < x < 2 ^ 32 ->
  Z.testbit x bot = true ->
  (forall j, j < bot -> Z.testbit x j = false) ->
  lj_ffs x = Some bot.
Proof.
  intros Hx Hbit Hbelow.
  destruct (lj_ffs_lowest x Hx) as (t & Heq & _ & Htbit & Htbelow).
  rewrite Heq. f_equal.
  destruct (Z.lt_trichotomy t bot) as [Hlt | [Heq' | Hgt]];
    [|exact Heq'|].
  - rewrite (Hbelow t Hlt) in Htbit. discriminate.
  - rewrite (Htbelow bot Hgt) in Hbit. discriminate.
Qed.

Lemma mask_with_bit_positive (x i : Z) :
  0 <= x -> Z.testbit x i = true -> 0 < x.
Proof.
  intros Hx Hbit. destruct (Z.eq_dec x 0) as [->|Hne]; [|lia].
  rewrite Z.bits_0 in Hbit. discriminate.
Qed.

(** X11: on a non-empty range the picks return its ends: for [lo < hi],
    [rset_pickbot] of [RSET_RANGE(lo, hi)] is [lo] and [rset_picktop] of it
    is [hi - 1]. *)
Theorem rset_pick_of_range (lo hi : Z) :
  0 <= lo < hi ->
  hi <= 32 ->
  hi - lo <= 31 ->
  exists rs,
    RSET_RANGE lo hi = Some rs /\
    rset_pickbot rs = Some lo /\
    rset_picktop rs = Some (hi - 1).
Proof.
  intros Hlo Hhi Hw. eexists.
  split; [apply RSET_RANGE_defined; lia|].
  pose proof (range_mask_range lo hi) as Hrange.
  set (rs := u32 (Z.shiftl (Z.ones (hi - lo)) lo)) in *.
  assert (Hbits : forall i, 0 <= i ->
                    Z.testbit rs i = (lo <=? i) && (i <? hi))
    by (intros i Hi; apply testbit_range_mask_all; lia).
  assert (Hpos : 0 < rs < 2 ^ 32).
  { split; [|lia]. apply (mask_with_bit_positive rs lo); [lia|].
    rewrite Hbits by lia. lia. }
  unfold rset_pickbot, rset_picktop.
  rewrite (lj_ffs_unique rs lo), (lj_fls_unique rs (hi - 1)); try exact Hpos.
  - simpl option_map. rewrite !u32_small by lia. split; reflexivity.
  - rewrite Hbits by lia. lia.
  - intros j Hj. rewrite Hbits by lia. lia.
  - rewrite Hbits by lia. lia.
  - intros j Hj. destruct (Z_lt_le_dec j 0);
      [apply Z.testbit_neg_r; lia | rewrite Hbits by lia; lia].
Qed.

Lemma rset_pick_of_range_witness :
  0 <= 16 < 32 /\ 32 <= 32 /\ 32 - 16 <= 31 /\
  (exists rs,
     RSET_RANGE 16 32 = Some rs /\
     rset_pickbot rs = Some 16 /\
     rset_picktop rs = Some (32 - 1)).
Proof.
  repeat (split; [lia|]). apply (rset_pick_of_range 16 32); lia.
Defined.

Lemma ldiff_set_bit (rs i : Z) :
  0 <= i -> Z.testbit rs i = true -> Z.ldiff rs (2 ^ i) = rs - 2 ^ i.
Proof.
  intros Hi Hbit. rewrite Z.ldiff_land, <- Z.sub_land_same_l. f_equal.
  apply Z.bits_inj'. intros j Hj.
  rewrite Z.land_spec, Z.pow2_bits_eqb by lia.
  destruct (Z.eqb_spec i j) as [<-|Hne];
    [rewrite Hbit; reflexivity | apply andb_false_r].
Qed.

(** X12: taking the top register out of a non-empty set makes progress:
    after [rset_clear(rs, rset_picktop(rs))] the set is strictly smaller,
    holds no register at or above the one picked, and, unless it is now
    empty, its next [rset_picktop] is a lower register. *)
Theorem rset_clear_picktop_descends (rs : Z) :
  0 < rs < 2 ^ 32 ->
  exists top rs',
    rset_picktop rs = Some top /\
    rset_clear rs top = Some rs' /\
    0 <= rs' < rs /\
    (forall j, top <= j -> Z.testbit rs' j = false) /\
    (rs' <> RSET_EMPTY ->
     exists top', rset_picktop rs' = Some top' /\ top' < top).
Proof.
  intros Hrs.
  destruct (lj_fls_highest rs Hrs) as (top & Htop & Hr & Hbit & Habove).
  exists top, (Z.ldiff rs (2 ^ top)).
  assert (Hp : 0 < 2 ^ top) by (apply Z.pow_pos_nonneg; lia).
  pose proof (clear_bit_range rs top ltac:(lia) Hr) as Hclr.
  pose proof (ldiff_set_bit rs top ltac:(lia) Hbit) as Hval.
  assert (Hgone : forall j, top <= j ->
                    Z.testbit (Z.ldiff rs (2 ^ top)) j = false).
  { intros j Hj. rewrite Z.ldiff_spec, Z.pow2_bits_eqb by lia.
    destruct (Z.eqb_spec top j) as [<-|Hne]; [apply andb_false_r|].
    rewrite Habove by lia. reflexivity. }
  split; [unfold rset_picktop; rewrite Htop; simpl;
          rewrite u32_small by lia; reflexivity|].
  split; [apply rset_clear_val; lia|].
  split; [lia|]. split; [exact Hgone|].
  unfold RSET_EMPTY. intros Hne.
  destruct (lj_fls_highest (Z.ldiff rs (2 ^ top)) ltac:(lia))
    as (top' & Htop' & Hr' & Hbit' & _).
  exists top'.
  split; [unfold rset_picktop; rewrite Htop'; simpl;
          rewrite u32_small by lia; reflexivity|].
  destruct (Z_lt_le_dec top' top) as [Hlt|Hge]; [exact Hlt|].
  rewrite (Hgone top' Hge) in Hbit'. discriminate.
Qed.

Lemma rset_clear_picktop_descends_witness :
  0 < 0x224 < 2 ^ 32 /\
  (exists top rs',
     rset_picktop 0x224 = Some top /\
     rset_clear 0x224 top = Some rs' /\
     0 <= rs' < 0x224 /\
     (forall j, top <= j -> Z.testbit rs' j = false) /\
     (rs' <> RSET_EMPTY ->
      exists top', rset_picktop rs' = Some top' /\ top' < top)).
Proof. split; [lia | apply (rset_clear_picktop_descends 0x224); lia]. Defined.

(** X13: the same from the bottom: after
    [rset_clear(rs, rset_pickbot(rs))] the set is strictly smaller, holds
    no register at or below the one picked, and, unless it is now empty,
    its next [rset_pickbot] is a higher register. *)
Theorem rset_clear_pickbot_ascends (rs : Z) :
  0 < rs < 2 ^ 32 ->
  exists bot rs',
    rset_pickbot rs = Some bot /\
    rset_clear rs bot = Some rs' /\
    0 <= rs' < rs /\
    (forall j, j <= bot -> Z.testbit rs' j = false) /\
    (rs' <> RSET_EMPTY ->
     exists bot', rset_pickbot rs' = Some bot' /\ bot < bot').
Proof.
  intros Hrs.
  destruct (lj_ffs_lowest rs Hrs) as (bot & Hbot & Hr & Hbit & Hbelow).
  exists bot, (Z.ldiff rs (2 ^ bot)).
  assert (Hp : 0 < 2 ^ bot) by (apply Z.pow_pos_nonneg; lia).
  pose proof (clear_bit_range rs bot ltac:(lia) Hr) as Hclr.
  pose proof (ldiff_set_bit rs bot ltac:(lia) Hbit) as Hval.
  assert (Hgone : forall j, j <= bot ->
                    Z.testbit (Z.ldiff rs (2 ^ bot)) j = false).
  { intros j Hj. destruct (Z_lt_le_dec j 0);
      [apply Z.testbit_neg_r; lia|].
    rewrite Z.ldiff_spec, Z.pow2_bits_eqb by lia.
    destruct (Z.eqb_spec bot j) as [<-|Hne]; [apply andb_false_r|].
    rewrite Hbelow by lia. reflexivity. }
  split; [unfold rset_pickbot; rewrite Hbot; simpl;
          rewrite u32_small by lia; reflexivity|].
  split; [apply rset_clear_val; lia|].
  split; [lia|]. split; [exact Hgone|].
  unfold RSET_EMPTY. intros Hne.
  destruct (lj_ffs_lowest (Z.ldiff rs (2 ^ bot)) ltac:(lia))
    as (bot' & Hbot' & Hr' & Hbit' & _).
  exists bot'.
  split; [unfold rset_pickbot; rewrite Hbot'; simpl;
          rewrite u32_small by lia; reflexivity|].
  destruct (Z_lt_le_dec bot bot') as [Hlt|Hge]; [exact Hlt|].
  rewrite (Hgone bot' Hge) in Hbit'. discriminate.
Qed.

Lemma rset_clear_pickbot_ascends_witness :
  0 < 0x224 < 2 ^ 32 /\
  (exists bot rs',
     rset_pickbot 0x224 = Some bot /\
     rset_clear 0x224 bot = Some rs' /\
     0 <= rs' < 0x224 /\
     (forall j, j <= bot -> Z.testbit rs' j = false) /\
     (rs' <> RSET_EMPTY ->
      exists bot', rset_pickbot rs' = Some bot' /\ bot < bot')).
Proof. split; [lia | apply (rset_clear_pickbot_ascends 0x224); lia]. Defined.

(** ** Register allocation cost: packing and order *)

Lemma u32_shl16 (x : Z) :
  u32 (Z.shiftl (u32 x) 16) = u16 x * 2 ^ 16.
Proof.
  rewrite Z.shiftl_mul_pow2 by lia. unfold u32, u16.
  change (2 ^ 32) with (2 ^ 16 * 2 ^ 16).
  rewrite Z.mul_mod_distr_r by lia. f_equal.
  apply Z.mod_mod_divide. exists (2 ^ 16). reflexivity.
Qed.

Lemma REGCOST_val (cost ref : Z) :
  0 <= ref < 2 ^ 16 ->
  REGCOST cost ref = ref + u16 cost * 2 ^ 16.
Proof.
  intros Href. unfold REGCOST.
  rewrite (u32_small ref), u32_shl16 by lia.
  pose proof (Z.mod_pos_bound cost (2 ^ 16) ltac:(lia)) as Hm.
  apply u32_small. unfold u16. lia.
Qed.

(** X14: [REGCOST(cost, ref)] keeps a 16-bit [ref] in its low half, where
    [regcost_ref] reads it back, and the low 16 bits of [cost] in its high
    half; what [cost] has above 16 bits is lost. *)
Theorem REGCOST_halves (cost ref : Z) :
  0 <= cost < 2 ^ 32 ->
  0 <= ref < 2 ^ 16 ->
  regcost_ref (REGCOST cost ref) = ref /\
  Z.shiftr (REGCOST cost ref) 16 = u16 cost /\
  REGCOST (cost + 2 ^ 16) ref = REGCOST cost ref.
Proof.
  intros Hcost Href.
  rewrite !REGCOST_val by exact Href.
  split; [|split].
  - unfold regcost_ref, u16 at 1.
    rewrite Z.mod_add by lia. apply Z.mod_small. exact Href.
  - apply cost_hi_half. exact Href.
  - do 2 f_equal. unfold u16.
    replace (cost + 2 ^ 16) with (cost + 1 * 2 ^ 16) by lia.
    apply Z.mod_add. lia.
Qed.

Lemma REGCOST_halves_witness :
  0 <= 0x1002a < 2 ^ 32 /\ 0 <= 0x8005 < 2 ^ 16 /\
  (regcost_ref (REGCOST 0x1002a 0x8005) = 0x8005 /\
   Z.shiftr (REGCOST 0x1002a 0x8005) 16 = u16 0x1002a /\
   REGCOST (0x1002a + 2 ^ 16) 0x8005 = REGCOST 0x1002a 0x8005).
Proof.
  split; [lia | split; [lia | apply (REGCOST_halves 0x1002a 0x8005); lia]].
Defined.

(** X15: for 16-bit costs and references the unsigned order of
    [REGCOST] values is the lexicographic order of (cost, ref), and two
    packed values are equal only when both parts are. *)
Theorem REGCOST_order (c1 r1 c2 r2 : Z) :
  0 <= c1 < 2 ^ 16 ->
  0 <= r1 < 2 ^ 16 ->
  0 <= c2 < 2 ^ 16 ->
  0 <= r2 < 2 ^ 16 ->
  (REGCOST c1 r1 < REGCOST c2 r2 <-> c1 < c2 \/ (c1 = c2 /\ r1 < r2)) /\
  (REGCOST c1 r1 = REGCOST c2 r2 <-> c1 = c2 /\ r1 = r2).
Proof.
  intros Hc1 Hr1 Hc2 Hr2.
  rewrite !REGCOST_val by lia. unfold u16.
  rewrite !Z.mod_small by lia.
  split; [apply cost_lt_lex; assumption | lia].
Qed.

Lemma REGCOST_order_witness :
  0 <= 7 < 2 ^ 16 /\ 0 <= 900 < 2 ^ 16 /\
  0 <= 8 < 2 ^ 16 /\ 0 <= 3 < 2 ^ 16 /\
  ((REGCOST 7 900 < REGCOST 8 3 <-> 7 < 8 \/ (7 = 8 /\ 900 < 3)) /\
   (REGCOST 7 900 = REGCOST 8 3 <-> 7 = 8 /\ 900 = 3)).
Proof.
  repeat (split; [lia|]). apply (REGCOST_order 7 900 8 3); lia.
Defined.

Section RegCostOrder.
Variable IRT_ISPHI : Z.
Hypothesis IRT_ISPHI_bit : exists k, 0 <= k <= 22 /\ IRT_ISPHI = 2 ^ k.

Lemma phi_weight_of_flag (t : Z) :
  (Z.land t IRT_ISPHI = 0 -> phi_weight IRT_ISPHI t = 0) /\
  (Z.land t IRT_ISPHI <> 0 -> phi_weight IRT_ISPHI t = REGCOST_PHI_WEIGHT).
Proof.
  unfold phi_weight.
  destruct (Z.eqb_spec (Z.land t IRT_ISPHI) 0); split; intros H;
    try reflexivity; contradiction.
Qed.

(** X16: for every 16-bit reference the cost built by [REGCOST_REF_T] is
    the reference in the low half and [ref + weight] reduced modulo 2^16
    in the high half, so the cost of a value with a non-zero reference is
    never 0, the cost of a free register. *)
Theorem REGCOST_REF_T_halves (ref t : Z) :
  0 <= ref < 2 ^ 16 ->
  REGCOST_REF_T IRT_ISPHI ref t
  = ref + u16 (ref + phi_weight IRT_ISPHI t) * 2 ^ 16 /\
  Z.shiftr (REGCOST_REF_T IRT_ISPHI ref t) 16
  = u16 (ref + phi_weight IRT_ISPHI t) /\
  (ref <> 0 -> REGCOST_REF_T IRT_ISPHI ref t <> 0).
Proof.
  intros Href.
  pose proof (REGCOST_REF_T_hi_half IRT_ISPHI IRT_ISPHI_bit ref t Href)
    as Hhi.
  pose proof (REGCOST_REF_T_low_half IRT_ISPHI IRT_ISPHI_bit ref t Href)
    as Hlo.
  unfold cost_key in Hhi.
  assert (Hval : REGCOST_REF_T IRT_ISPHI ref t
                 = ref + u16 (ref + phi_weight IRT_ISPHI t) * 2 ^ 16).
  { rewrite <- Hhi. rewrite Z.shiftr_div_pow2 by lia.
    pose proof (Z.div_mod (REGCOST_REF_T IRT_ISPHI ref t) (2 ^ 16)
                  ltac:(lia)) as Hdm.
    unfold u16 in Hlo. lia. }
  split; [exact Hval|]. split; [exact Hhi|].
  intros Hne Hzero. rewrite Hzero in Hlo. apply Hne. rewrite <- Hlo.
  reflexivity.
Qed.

(** X17: the phi weight is the distance a phi has to be away to be
    spilled: a phi value with reference [rp] costs less than a value
    without the phi flag and with reference [rn] exactly when
    [rp + REGCOST_PHI_WEIGHT <= rn]. *)
Theorem phi_spilled_only_from_distance (rp tp rn tn : Z) :
  0 <= rp ->
  rp + REGCOST_PHI_WEIGHT < 2 ^ 16 ->
  0 <= rn < 2 ^ 16 ->
  Z.land tp IRT_ISPHI <> 0 ->
  Z.land tn IRT_ISPHI = 0 ->
  (REGCOST_REF_T IRT_ISPHI rp tp < REGCOST_REF_T IRT_ISPHI rn tn <->
   rp + REGCOST_PHI_WEIGHT <= rn).
Proof.
  intros Hrp Hfit Hrn Hphi Hplain.
  apply (proj2 (phi_weight_of_flag tp)) in Hphi.
  apply (proj1 (phi_weight_of_flag tn)) in Hplain.
  unfold REGCOST_PHI_WEIGHT in *.
  rewrite !(REGCOST_REF_T_nowrap IRT_ISPHI IRT_ISPHI_bit)
    by (unfold cost_key; lia).
  unfold cost_key. rewrite Hphi, Hplain. lia.
Qed.

(** X18: among values of one class (all with the phi flag or all without)
    the cost order is the order of the references, so the minimum cost
    belongs to the lowest reference, as in plain linear scan. *)
Theorem same_class_cost_order_is_ref_order (ref1 t1 ref2 t2 : Z) :
  0 <= ref1 < 2 ^ 16 ->
  0 <= ref2 < 2 ^ 16 ->
  phi_weight IRT_ISPHI t1 = phi_weight IRT_ISPHI t2 ->
  ref1 + phi_weight IRT_ISPHI t1 < 2 ^ 16 ->
  ref2 + phi_weight IRT_ISPHI t2 < 2 ^ 16 ->
  (REGCOST_REF_T IRT_ISPHI ref1 t1 < REGCOST_REF_T IRT_ISPHI ref2 t2 <->
   ref1 < ref2) /\
  (REGCOST_REF_T IRT_ISPHI ref1 t1 = REGCOST_REF_T IRT_ISPHI ref2 t2 <->
   ref1 = ref2).
Proof.
  intros Href1 Href2 Hsame Hfit1 Hfit2.
  rewrite !(REGCOST_REF_T_nowrap IRT_ISPHI IRT_ISPHI_bit)
    by (unfold cost_key; lia).
  unfold cost_key. rewrite Hsame. split; lia.
Qed.

End RegCostOrder.

Lemma REGCOST_REF_T_halves_witness :
  (exists k, 0 <= k <= 22 /\ 0x40 = 2 ^ k) /\
  0 <= 65500 < 2 ^ 16 /\
  (REGCOST_REF_T 0x40 65500 0x40
   = 65500 + u16 (65500 + phi_weight 0x40 0x40) * 2 ^ 16 /\
   Z.shiftr (REGCOST_REF_T 0x40 65500 0x40) 16
   = u16 (65500 + phi_weight 0x40 0x40) /\
   (65500 <> 0 -> REGCOST_REF_T 0x40 65500 0x40 <> 0)).
Proof.
  assert (Hbit : exists k, 0 <= k <= 22 /\ 0x40 = 2 ^ k)
    by (exists 6; split; [lia | reflexivity]).
  split; [exact Hbit|]. split; [lia|].
  apply (REGCOST_REF_T_halves 0x40 Hbit 65500 0x40). lia.
Defined.

Lemma phi_spilled_only_from_distance_witness :
  (exists k, 0 <= k <= 22 /\ 0x40 = 2 ^ k) /\
  0 <= 0x8003 /\ 0x8003 + REGCOST_PHI_WEIGHT < 2 ^ 16 /\
  0 <= 0x8050 < 2 ^ 16 /\
  Z.land 0x45 0x40 <> 0 /\ Z.land 0x05 0x40 = 0 /\
  (REGCOST_REF_T 0x40 0x8003 0x45 < REGCOST_REF_T 0x40 0x8050 0x05 <->
   0x8003 + REGCOST_PHI_WEIGHT <= 0x8050).
Proof.
  assert (Hbit : exists k, 0 <= k <= 22 /\ 0x40 = 2 ^ k)
    by (exists 6; split; [lia | reflexivity]).
  assert (Hfit : 0x8003 + REGCOST_PHI_WEIGHT < 2 ^ 16) by reflexivity.
  assert (Hphi : Z.land 0x45 0x40 <> 0) by discriminate.
  assert (Hplain : Z.land 0x05 0x40 = 0) by reflexivity.
  split; [exact Hbit|]. split; [lia|]. split; [exact Hfit|].
  split; [lia|]. split; [exact Hphi|]. split; [exact Hplain|].
  apply (phi_spilled_only_from_distance 0x40 Hbit 0x8003 0x45 0x8050 0x05);
    [lia | exact Hfit | lia | exact Hphi | exact Hplain].
Defined.

Lemma same_class_cost_order_is_ref_order_witness :
  (exists k, 0 <= k <= 22 /\ 0x40 = 2 ^ k) /\
  0 <= 0x8003 < 2 ^ 16 /\ 0 <= 0x8050 < 2 ^ 16 /\
  phi_weight 0x40 0x45 = phi_weight 0x40 0x4a /\
  0x8003 + phi_weight 0x40 0x45 < 2 ^ 16 /\
  0x8050 + phi_weight 0x40 0x4a < 2 ^ 16 /\
  ((REGCOST_REF_T 0x40 0x8003 0x45 < REGCOST_REF_T 0x40 0x8050 0x4a <->
    0x8003 < 0x8050) /\
   (REGCOST_REF_T 0x40 0x8003 0x45 = REGCOST_REF_T 0x40 0x8050 0x4a <->
    0x8003 = 0x8050)).
Proof.
  assert (Hbit : exists k, 0 <= k <= 22 /\ 0x40 = 2 ^ k)
    by (exists 6; split; [lia | reflexivity]).
  assert (Hsame : phi_weight 0x40 0x45 = phi_weight 0x40 0x4a)
    by reflexivity.
  assert (Hfit1 : 0x8003 + phi_weight 0x40 0x45 < 2 ^ 16) by reflexivity.
  assert (Hfit2 : 0x8050 + phi_weight 0x40 0x4a < 2 ^ 16) by reflexivity.
  split; [exact Hbit|]. split; [lia|]. split; [lia|].
  split; [exact Hsame|]. split; [exact Hfit1|]. split; [exact Hfit2|].
  apply (same_class_cost_order_is_ref_order 0x40 Hbit 0x8003 0x45 0x8050
           0x4a); [lia | lia | exact Hsame | exact Hfit1 | exact Hfit2].
Defined.

(** ** Exit stubs: the layout of a group *)

Lemma exitstub_addr_inv (G S : Z) (J : jit_State) (e a : Z) :
  0 < G < 2 ^ 32 ->
  0 <= S < 2 ^ 32 ->
  S * (G - 1) < 2 ^ 32 ->
  0 <= e < 2 ^ 32 ->
  exitstub_addr G S J e = Some a ->
  exists base,
    nth_error (exitstubgroup J) (Z.to_nat (e / G)) = Some base /\
    base <> 0 /\
    a = base + S * (e mod G).
Proof.
  intros HG HS Hspan He. unfold exitstub_addr.
  rewrite (u32_small G), (u32_small S) by lia.
  replace (G =? 0) with false by (symmetry; apply Z.eqb_neq; lia).
  destruct (nth_error (exitstubgroup J) (Z.to_nat (e / G))) as [base|];
    [|discriminate].
  destruct (Z.eqb_spec base 0) as [Hz|Hnz]; [discriminate|].
  pose proof (Z.mod_pos_bound e G ltac:(lia)) as Hmod.
  rewrite u32_small by nia.
  intros Heq. injection Heq as <-.
  exists base. repeat split. exact Hnz.
Qed.

(** X19: [exitstub_addr] gives an address only for a generated group, and
    the address lies inside that group's block: when it returns [a] for
    exit [e], the table holds a base for group [e / G] that is not [NULL],
    and [a] is between that base and the last stub of the block.  For a
    group whose entry is [NULL] or missing there is no result. *)
Theorem exitstub_addr_in_group (G S : Z) (J : jit_State) (e : Z) :
  0 < G < 2 ^ 32 ->
  0 <= S < 2 ^ 32 ->
  S * (G - 1) < 2 ^ 32 ->
  0 <= e < 2 ^ 32 ->
  (forall a, exitstub_addr G S J e = Some a ->
   exists base,
     nth_error (exitstubgroup J) (Z.to_nat (e / G)) = Some base /\
     base <> 0 /\
     base <= a <= base + S * (G - 1)) /\
  (nth_error (exitstubgroup J) (Z.to_nat (e / G)) = Some 0 ->
   exitstub_addr G S J e = None) /\
  (nth_error (exitstubgroup J) (Z.to_nat (e / G)) = None ->
   exitstub_addr G S J e = None).
Proof.
  intros HG HS Hspan He. split; [|split].
  - intros a Ha.
    destruct (exitstub_addr_inv G S J e a HG HS Hspan He Ha)
      as (base & Hgroup & Hbase & ->).
    exists base. split; [exact Hgroup|]. split; [exact Hbase|].
    pose proof (Z.mod_pos_bound e G ltac:(lia)). nia.
  - intros Hnull. unfold exitstub_addr. rewrite (u32_small G) by lia.
    replace (G =? 0) with false by (symmetry; apply Z.eqb_neq; lia).
    rewrite Hnull. reflexivity.
  - intros Hnone. unfold exitstub_addr. rewrite (u32_small G) by lia.
    replace (G =? 0) with false by (symmetry; apply Z.eqb_neq; lia).
    rewrite Hnone. reflexivity.
Qed.

Lemma exitstub_addr_in_group_witness :
  0 < 32 < 2 ^ 32 /\ 0 <= 4 < 2 ^ 32 /\ 4 * (32 - 1) < 2 ^ 32 /\
  0 <= 40 < 2 ^ 32 /\
  ((forall a, exitstub_addr 32 4 (mk_jit_State [0x7000; 0x9000; 0]) 40
              = Some a ->
    exists base,
      nth_error (exitstubgroup (mk_jit_State [0x7000; 0x9000; 0]))
                (Z.to_nat (40 / 32)) = Some base /\
      base <> 0 /\
      base <= a <= base + 4 * (32 - 1)) /\
   (nth_error (exitstubgroup (mk_jit_State [0x7000; 0x9000; 0]))
              (Z.to_nat (40 / 32)) = Some 0 ->
    exitstub_addr 32 4 (mk_jit_State [0x7000; 0x9000; 0]) 40 = None) /\
   (nth_error (exitstubgroup (mk_jit_State [0x7000; 0x9000; 0]))
              (Z.to_nat (40 / 32)) = None ->
    exitstub_addr 32 4 (mk_jit_State [0x7000; 0x9000; 0]) 40 = None)).
Proof.
  repeat (split; [lia|]).
  apply (exitstub_addr_in_group 32 4 (mk_jit_State [0x7000; 0x9000; 0]) 40);
    lia.
Defined.

(** X20: inside one group the stubs lie [S] bytes apart in the order of
    their exit numbers: for two exits of the same group the addresses
    differ by [S] times the difference of the exit numbers, so with a
    spacing that is not 0 different exits have different addresses. *)
Theorem exitstub_addr_same_group (G S : Z) (J : jit_State) (e1 e2 a1 a2 : Z) :
  0 < G < 2 ^ 32 ->
  0 <= S < 2 ^ 32 ->
  S * (G - 1) < 2 ^ 32 ->
  0 <= e1 < 2 ^ 32 ->
  0 <= e2 < 2 ^ 32 ->
  e1 / G = e2 / G ->
  exitstub_addr G S J e1 = Some a1 ->
  exitstub_addr G S J e2 = Some a2 ->
  a2 - a1 = S * (e2 - e1) /\
  (0 < S -> a1 = a2 -> e1 = e2).
Proof.
  intros HG HS Hspan He1 He2 Hsame Ha1 Ha2.
  destruct (exitstub_addr_inv G S J e1 a1 HG HS Hspan He1 Ha1)
    as (b1 & Hg1 & _ & ->).
  destruct (exitstub_addr_inv G S J e2 a2 HG HS Hspan He2 Ha2)
    as (b2 & Hg2 & _ & ->).
  rewrite Hsame, Hg2 in Hg1. injection Hg1 as ->.
  pose proof (Z.div_mod e1 G ltac:(lia)) as Hd1.
  pose proof (Z.div_mod e2 G ltac:(lia)) as Hd2.
  rewrite Hsame in Hd1.
  assert (Hdiff : e2 mod G - e1 mod G = e2 - e1) by lia.
  split; [nia|].
  intros HSpos Heq. nia.
Qed.

Lemma exitstub_addr_same_group_witness :
  0 < 32 < 2 ^ 32 /\ 0 <= 4 < 2 ^ 32 /\ 4 * (32 - 1) < 2 ^ 32 /\
  0 <= 40 < 2 ^ 32 /\ 0 <= 63 < 2 ^ 32 /\ 40 / 32 = 63 / 32 /\
  exitstub_addr 32 4 (mk_jit_State [0x7000; 0x9000]) 40 = Some 0x9020 /\
  exitstub_addr 32 4 (mk_jit_State [0x7000; 0x9000]) 63 = Some 0x907c /\
  (0x907c - 0x9020 = 4 * (63 - 40) /\
   (0 < 4 -> 0x9020 = 0x907c -> 40 = 63)).
Proof.
  assert (Hq : 40 / 32 = 63 / 32) by reflexivity.
  assert (H1 : exitstub_addr 32 4 (mk_jit_State [0x7000; 0x9000]) 40
               = Some 0x9020) by reflexivity.
  assert (H2 : exitstub_addr 32 4 (mk_jit_State [0x7000; 0x9000]) 63
               = Some 0x907c) by reflexivity.
  repeat (split; [first [lia | exact Hq | exact H1 | exact H2]|]).
  apply (exitstub_addr_same_group 32 4 (mk_jit_State [0x7000; 0x9000])
           40 63 0x9020 0x907c);
    first [lia | exact Hq | exact H1 | exact H2].
Defined.

(** ** Register sets: one register *)

(** X21: [RID2RSET(r)] is the set of the single register [r]: it is the
    range [RSET_RANGE(r, r + 1)] and what [rset_set] makes of the empty
    set, [rset_test] finds [r] in it and no other register, and both picks
    return [r]. *)
Theorem RID2RSET_singleton (r r' : Z) :
  0 <= r <= 31 ->
  0 <= r' <= 31 ->
  exists b,
    RID2RSET r = Some b /\
    RSET_RANGE r (r + 1) = Some b /\
    rset_set RSET_EMPTY r = Some b /\
    (rset_test b r' = Some 1 <-> r' = r) /\
    rset_picktop b = Some r /\
    rset_pickbot b = Some r.
Proof.
  intros Hr Hr'. exists (2 ^ r).
  assert (Hp : 0 < 2 ^ r < 2 ^ 32)
    by (split; [apply Z.pow_pos_nonneg; lia | apply Z.pow_lt_mono_r; lia]).
  split; [apply RID2RSET_defined; exact Hr|].
  split.
  { rewrite RSET_RANGE_defined by lia.
    replace (r + 1 - r) with 1 by lia. change (Z.ones 1) with 1.
    rewrite Z.shiftl_mul_pow2, Z.mul_1_l, u32_small by lia. reflexivity. }
  split; [rewrite rset_set_val by exact Hr; reflexivity|].
  split.
  { rewrite rset_test_testbit, Z.pow2_bits_eqb by lia.
    destruct (Z.eqb_spec r r') as [->|Hne]; simpl; split; intros H;
      try reflexivity; try discriminate; try lia. }
  assert (Hbit : Z.testbit (2 ^ r) r = true)
    by (apply Z.pow2_bits_true; lia).
  assert (Hother : forall j, j <> r -> Z.testbit (2 ^ r) j = false)
    by (intros j Hj; apply Z.pow2_bits_false; lia).
  unfold rset_picktop, rset_pickbot.
  rewrite (lj_fls_unique (2 ^ r) r), (lj_ffs_unique (2 ^ r) r);
    try assumption; try (intros j Hj; apply Hother; lia).
  simpl option_map. rewrite u32_small by lia. split; reflexivity.
Qed.

Lemma RID2RSET_singleton_witness :
  0 <= 9 <= 31 /\ 0 <= 9 <= 31 /\
  (exists b,
     RID2RSET 9 = Some b /\
     RSET_RANGE 9 (9 + 1) = Some b /\
     rset_set RSET_EMPTY 9 = Some b /\
     (rset_test b 9 = Some 1 <-> 9 = 9) /\
     rset_picktop b = Some 9 /\
     rset_pickbot b = Some 9).
Proof.
  split; [lia | split; [lia | apply (RID2RSET_singleton 9 9); lia]].
Defined.
